(** * Residual-cost functions of libwebp, SSE2 version (src/dsp/cost_sse2.c)

    A shallow embedding of [SetResidualCoeffsSSE2] and [GetResidualCostSSE2]
    together with the SSE2 intrinsics they are written with, and the
    properties of the two functions.

    Conventions.
    - A C integer is a [Z]; where the source relies on a width (16-bit lanes,
      bytes, the 32-bit mask) the wrap-around is written out.
    - An [__m128i] is the list of its 16 bytes, lowest address first, each
      byte in [0, 256).  16-bit lanes are pairs of bytes, little-endian.
    - An array is a list; [a[n]] is [get a n].
    - The read-only tables of the encoder ([VP8EncBands],
      [VP8LevelFixedCosts]) and the inline [VP8BitCost] live in other files;
      the functions take them from a [CostTables] instance.
    - [int cost] is a [Z] without wrap-around: it sums at most seventeen
      entries of 16-bit tables and two bit costs. *)

From Stdlib Require Import ZArith List Lia Bool.
Import ListNotations.
Local Open Scope Z_scope.

(** ** Machine integers *)

Definition int16_t (x : Z) : Prop := -32768 <= x <= 32767.

(** Value of a 16-bit pattern [u] in [0, 65536) read as a signed lane. *)
Definition sext16 (u : Z) : Z := if u <? 32768 then u else u - 65536.

(** Signed saturation of a 16-bit lane to 8 bits. *)
Definition sat8 (x : Z) : Z := Z.max (-128) (Z.min 127 x).

(** [a[n]] for an array held as a list.  A read outside the array is
    undefined in C; here it gives 0 past the end and [a[0]] for a negative
    index, and no statement below relies on either. *)
Definition get (a : list Z) (n : Z) : Z := nth (Z.to_nat n) a 0.

Fixpoint map2 (f : Z -> Z -> Z) (a b : list Z) : list Z :=
  match a, b with
  | x :: a', y :: b' => f x y :: map2 f a' b'
  | _, _ => []
  end.

(** ** The SSE2 intrinsics used by the file *)

Definition __m128i : Type := list Z.

(** Bytes of a sequence of 16-bit lanes; the two [mod] reduce a lane value
    modulo 2^16, so a signed lane is stored in two's complement. *)
Fixpoint bytes_of_epi16 (l : list Z) : __m128i :=
  match l with
  | [] => []
  | x :: r => x mod 256 :: (x / 256) mod 256 :: bytes_of_epi16 r
  end.

Fixpoint epu16_of_bytes (v : __m128i) : list Z :=
  match v with
  | lo :: hi :: r => (lo + 256 * hi) :: epu16_of_bytes r
  | _ => []
  end.

Definition epi16_of_bytes (v : __m128i) : list Z :=
  map sext16 (epu16_of_bytes v).

(** Unaligned load of eight [int16_t] starting at [p + off]. *)
Definition _mm_loadu_si128 (p : list Z) (off : nat) : __m128i :=
  bytes_of_epi16 (firstn 8 (skipn off p)).

Definition _mm_setzero_si128 : __m128i := repeat 0 16.

Definition _mm_set1_epi8 (b : Z) : __m128i := repeat (b mod 256) 16.

Definition _mm_cmpeq_epi16 (a b : __m128i) : __m128i :=
  bytes_of_epi16
    (map2 (fun x y => if x =? y then -1 else 0)
          (epi16_of_bytes a) (epi16_of_bytes b)).

(** Bit [i] of the result is the most significant bit of byte [i]. *)
Fixpoint _mm_movemask_epi8 (a : __m128i) : Z :=
  match a with
  | [] => 0
  | b :: r => b / 128 + 2 * _mm_movemask_epi8 r
  end.

Definition _mm_min_epi16 (a b : __m128i) : __m128i :=
  bytes_of_epi16 (map2 Z.min (epi16_of_bytes a) (epi16_of_bytes b)).

Definition _mm_max_epi16 (a b : __m128i) : __m128i :=
  bytes_of_epi16 (map2 Z.max (epi16_of_bytes a) (epi16_of_bytes b)).

(** Lane-wise difference; [bytes_of_epi16] wraps it modulo 2^16. *)
Definition _mm_sub_epi16 (a b : __m128i) : __m128i :=
  bytes_of_epi16 (map2 Z.sub (epi16_of_bytes a) (epi16_of_bytes b)).

(** The sixteen signed lanes of [a] then [b], each saturated to a signed
    byte and stored in two's complement. *)
Definition _mm_packs_epi16 (a b : __m128i) : __m128i :=
  map (fun x => sat8 x mod 256) (epi16_of_bytes a ++ epi16_of_bytes b).

Definition _mm_min_epu8 (a b : __m128i) : __m128i := map2 Z.min a b.

(** Unaligned store of the 16 bytes of [v] into a [uint8_t] array at index
    [off]. *)
Definition _mm_storeu_si128_u8 (arr : list Z) (off : nat) (v : __m128i)
  : list Z :=
  firstn off arr ++ v ++ skipn (off + 16) arr.

(** Unaligned store of [v] into a [uint16_t] array at index [off]: eight
    unsigned lanes. *)
Definition _mm_storeu_si128_u16 (arr : list Z) (off : nat) (v : __m128i)
  : list Z :=
  firstn off arr ++ epu16_of_bytes v ++ skipn (off + 8) arr.

(** ** The residual record (enc/vp8enci.h), the fields this file uses *)

Record VP8Residual : Type := mkResidual {
  first : Z;
  last : Z;
  coeffs : list Z;               (* const int16_t*, 16 coefficients *)
  prob : Z -> Z -> Z -> Z;       (* prob[band][ctx][i], uint8_t *)
  cost : Z -> Z -> Z -> Z        (* cost[band][ctx][level], uint16_t *)
}.

(** Modelled from the spec: [BitsLog2Floor] of utils/utils.h is not in this
    file; it gives the bit-position of the most-significant set bit of a
    non-zero 32-bit value. *)
Definition BitsLog2Floor (n : Z) : Z := Z.log2 n.

(** Modelled from the spec: the macro [MAX_VARIABLE_LEVEL] of enc/cost.h is
    not in this file; the clamped level ranges over 0..67 (and the source
    comments the clamp with [clamp_level in [0..67]]). *)
Definition MAX_VARIABLE_LEVEL : Z := 67.

(** [~x] on a [uint32_t]. *)
Definition not_u32 (x : Z) : Z := Z.lnot x mod 2 ^ 32.

(** [(uint32_t)x << 16]. *)
Definition shl16_u32 (x : Z) : Z := Z.shiftl x 16 mod 2 ^ 32.

(** ** Context bucket and clamped level of a coefficient *)

(** Context bucket and clamped level of a coefficient. *)
Definition ctx_of (c : Z) : Z := Z.min (Z.abs c) 2.
Definition level_of (c : Z) : Z := Z.min (Z.abs c) MAX_VARIABLE_LEVEL.

(** One lane of [E0]/[E1] read as a signed 16-bit value, and the byte of
    [F] that [_mm_packs_epi16] makes of a signed lane. *)
Definition lane_abs (c : Z) : Z :=
  sext16 ((Z.max c 0 - Z.min c 0) mod 65536).
Definition lane_pack (e : Z) : Z := sat8 e mod 256.

(** ** SetResidualCoeffsSSE2 *)

Definition nonzero_mask (coeffs : list Z) : Z :=
  let c0 := _mm_loadu_si128 coeffs 0 in
  let c1 := _mm_loadu_si128 coeffs 8 in
  let zero := _mm_setzero_si128 in
  let m0 := _mm_cmpeq_epi16 c0 zero in
  let m1 := _mm_cmpeq_epi16 c1 zero in
  not_u32 (Z.lor (shl16_u32 (_mm_movemask_epi8 m1)) (_mm_movemask_epi8 m0)).

(** The two field writes of the function, [res->last = v] and
    [res->coeffs = p]. *)
Definition set_last (v : Z) (res : VP8Residual) : VP8Residual :=
  mkResidual (first res) v (coeffs res) (prob res) (cost res).

Definition set_coeffs (p : list Z) (res : VP8Residual) : VP8Residual :=
  mkResidual (first res) (last res) p (prob res) (cost res).

(** The assertion of the function, [res->first == 0 || coeffs[0] == 0]. *)
Definition first_ok (coeffs' : list Z) (res : VP8Residual) : Prop :=
  first res = 0 \/ get coeffs' 0 = 0.

Definition SetResidualCoeffsSSE2 (coeffs' : list Z) (res : VP8Residual)
  : VP8Residual :=
  let mask := nonzero_mask coeffs' in
  let res :=
    set_last (if mask =? 0 then -1 else Z.shiftr (BitsLog2Floor mask) 1) res in
  set_coeffs coeffs' res.

(** The scalar scan the accelerated one has to agree with: a reverse linear
    scan over positions [n-1 .. 0] that stops at the first non-zero
    coefficient; [-1] when there is none. *)
Fixpoint scalar_last (n : nat) (coeffs : list Z) : Z :=
  match n with
  | O => -1
  | S k => if nth k coeffs 0 =? 0 then scalar_last k coeffs else Z.of_nat k
  end.

Definition SetResidualCoeffs_scalar (coeffs' : list Z) (res : VP8Residual)
  : VP8Residual :=
  set_coeffs coeffs' (set_last (scalar_last 16 coeffs') res).

(** A block is sixteen [int16_t]. *)
Definition block16 (c : list Z) : Prop :=
  length c = 16%nat /\ Forall int16_t c.

(** ** GetResidualCostSSE2 *)

(** What the function works on: the residual it is given and its three local
    arrays [levels], [ctxs] (uint8_t[16]) and [abs_levels] (uint16_t[16]). *)
Record Frame : Type := mkFrame {
  f_res : VP8Residual;
  levels : list Z;
  ctxs : list Z;
  abs_levels : list Z
}.

Definition set_levels (a : list Z) (s : Frame) : Frame :=
  mkFrame (f_res s) a (ctxs s) (abs_levels s).
Definition set_ctxs (a : list Z) (s : Frame) : Frame :=
  mkFrame (f_res s) (levels s) a (abs_levels s).
Definition set_abs_levels (a : list Z) (s : Frame) : Frame :=
  mkFrame (f_res s) (levels s) (ctxs s) a.

(** The block that precomputes clamped levels and contexts, packed to 8b. *)
Definition precompute (s : Frame) : Frame :=
  let res := f_res s in
  let zero := _mm_setzero_si128 in
  let kCst2 := _mm_set1_epi8 2 in
  let kCst67 := _mm_set1_epi8 MAX_VARIABLE_LEVEL in
  let c0 := _mm_loadu_si128 (coeffs res) 0 in
  let c1 := _mm_loadu_si128 (coeffs res) 8 in
  let D0_m := _mm_min_epi16 c0 zero in
  let D0_p := _mm_max_epi16 c0 zero in
  let D1_m := _mm_min_epi16 c1 zero in
  let D1_p := _mm_max_epi16 c1 zero in
  let E0 := _mm_sub_epi16 D0_p D0_m in
  let E1 := _mm_sub_epi16 D1_p D1_m in
  let F := _mm_packs_epi16 E0 E1 in
  let G := _mm_min_epu8 F kCst2 in
  let H := _mm_min_epu8 F kCst67 in
  let s := set_ctxs (_mm_storeu_si128_u8 (ctxs s) 0 G) s in
  let s := set_levels (_mm_storeu_si128_u8 (levels s) 0 H) s in
  let s := set_abs_levels (_mm_storeu_si128_u16 (abs_levels s) 0 E0) s in
  let s := set_abs_levels (_mm_storeu_si128_u16 (abs_levels s) 8 E1) s in
  s.

(** [res->cost[b][ctx]], the row a [const uint16_t* t] points to. *)
Definition cost_row (res : VP8Residual) (b ctx : Z) : Z -> Z := cost res b ctx.

(** The local arrays have their declared sizes. *)
Definition frame_ok (s : Frame) : Prop :=
  length (levels s) = 16%nat /\ length (ctxs s) = 16%nat /\
  length (abs_levels s) = 16%nat.

(** The tables and the inline function of enc/cost.h and enc/vp8enci.h:
    the band of a scan position, the fixed cost of a level, and the cost
    [VP8BitCost(bit, proba)] of coding [bit] under probability [proba]. *)
Class CostTables : Type := {
  VP8EncBands : Z -> Z;
  VP8LevelFixedCosts : Z -> Z;
  VP8BitCost : Z -> Z -> Z
}.

Section Cost.

Context {tables : CostTables}.

(** [for (; n < res->last; ++n) { ... }] over the loop variables [n], [t]
    and [cost]; [fuel] bounds the number of iterations. *)
Fixpoint residual_loop (s : Frame) (fuel : nat) (n : Z) (t : Z -> Z)
  (cost : Z) : Z * (Z -> Z) * Z :=
  match fuel with
  | O => (n, t, cost)
  | S fuel' =>
      if n <? last (f_res s) then
        let ctx := get (ctxs s) n in
        let level := get (levels s) n in
        let flevel := get (abs_levels s) n in
        let b := VP8EncBands (n + 1) in
        let cost := cost + (VP8LevelFixedCosts flevel + t level) in
        let t := cost_row (f_res s) b ctx in
        residual_loop s fuel' (n + 1) t cost
      else (n, t, cost)
  end.

Definition GetResidualCostSSE2_frame (ctx0 : Z) (s : Frame) : Z * Frame :=
  let res := f_res s in
  let n := first res in
  let p0 := prob res n ctx0 0 in
  let t := cost_row res n ctx0 in
  let cost := if ctx0 =? 0 then VP8BitCost 1 p0 else 0 in
  if last res <? 0 then (VP8BitCost 0 p0, s)
  else
    let s := precompute s in
    let '(n, t, cost) :=
      residual_loop s (Z.to_nat (last res - n)) n t cost in
    let level := get (levels s) n in
    let flevel := get (abs_levels s) n in
    let cost := cost + (VP8LevelFixedCosts flevel + t level) in
    if n <? 15 then
      let b := VP8EncBands (n + 1) in
      let ctx := get (ctxs s) n in
      let last_p0 := prob res b ctx 0 in
      (cost + VP8BitCost 0 last_p0, s)
    else (cost, s).

(** The frame on entry: the local arrays hold whatever the stack holds. *)
Definition enter (res : VP8Residual) (stack : list Z) : Frame :=
  mkFrame res (firstn 16 stack) (firstn 16 (skipn 16 stack))
          (firstn 16 (skipn 32 stack)).

Definition GetResidualCostSSE2 (ctx0 : Z) (res : VP8Residual) : Z :=
  fst (GetResidualCostSSE2_frame ctx0 (enter res (repeat 0 48))).

(** *** Stages of [GetResidualCostSSE2] *)

(** The loop and the last coefficient (the [for] and the first statements
    of the block after it), run from given values of [n], [t] and [cost]:
    the final [n] and [cost]. *)
Definition accumulate (s : Frame) (n : Z) (t : Z -> Z) (cost : Z) : Z * Z :=
  let '(n, t, cost) :=
    residual_loop s (Z.to_nat (last (f_res s) - n)) n t cost in
  let level := get (levels s) n in
  let flevel := get (abs_levels s) n in
  (n, cost + (VP8LevelFixedCosts flevel + t level)).

(** The statement [if (n < 15) { ... cost += VP8BitCost(0, last_p0); }] as
    the amount it adds. *)
Definition terminate (s : Frame) (n : Z) : Z :=
  if n <? 15 then
    let b := VP8EncBands (n + 1) in
    let ctx := get (ctxs s) n in
    let last_p0 := prob (f_res s) b ctx 0 in
    VP8BitCost 0 last_p0
  else 0.

(** The frame the loop runs in. *)
Definition working_frame (res : VP8Residual) : Frame :=
  precompute (enter res (repeat 0 48)).

(** The value of [cost] once the coefficient at [last] has been added, when
    [cost] starts from [cost0]. *)
Definition cost_through_last (cost0 ctx0 : Z) (res : VP8Residual) : Z :=
  snd (accumulate (working_frame res) (first res)
                  (cost_row res (first res) ctx0) cost0).

(** [p0], the probability read on entry, and the initial value of
    [cost]. *)
Definition entry_p0 (ctx0 : Z) (res : VP8Residual) : Z :=
  prob res (first res) ctx0 0.

Definition base_cost (ctx0 : Z) (res : VP8Residual) : Z :=
  if ctx0 =? 0 then VP8BitCost 1 (entry_p0 ctx0 res) else 0.

(** What the function returns for [last >= 0] when [cost] starts from
    [cost0] instead of the base cost. *)
Definition cost_from (cost0 ctx0 : Z) (res : VP8Residual) : Z :=
  let s := working_frame res in
  let nc := accumulate s (first res) (cost_row res (first res) ctx0) cost0 in
  snd nc + terminate s (fst nc).

(** *** The cost as the specification words it *)

(** Positions [a, a+1, ...], [k] of them. *)
Fixpoint upfrom (a : Z) (k : nat) : list Z :=
  match k with
  | O => []
  | S k' => a :: upfrom (a + 1) k'
  end.

(** Positions [a .. b], none when [b < a]. *)
Definition positions (a b : Z) : list Z := upfrom a (Z.to_nat (b - a + 1)).

(** Base cost: the bit-cost of signaling "at least one non-zero
    coefficient" using [prob[band(first)][ctx0]], only if [ctx0 = 0]. *)
Definition spec_base_cost (ctx0 : Z) (res : VP8Residual) : Z :=
  if ctx0 =? 0
  then VP8BitCost 1 (prob res (VP8EncBands (first res)) ctx0 0)
  else 0.

(** [levelFixedCost[true magnitude] + t[clampedLevel]] for a coefficient. *)
Definition spec_coeff_cost (t : Z -> Z) (c : Z) : Z :=
  VP8LevelFixedCosts (Z.abs c) + t (level_of c).

(** One position before [last]: add its cost, then advance [t] to the row
    selected by [band(n+1)] and the position's own context bucket. *)
Definition spec_step (res : VP8Residual) (st : (Z -> Z) * Z) (n : Z)
  : (Z -> Z) * Z :=
  let c := get (coeffs res) n in
  (cost res (VP8EncBands (n + 1)) (ctx_of c),
   snd st + spec_coeff_cost (fst st) c).

(** Base cost plus the positions [first .. last-1] plus the position
    [last]. *)
Definition spec_coeffs_cost (ctx0 : Z) (res : VP8Residual) : Z :=
  let t0 := cost res (VP8EncBands (first res)) ctx0 in
  let st := fold_left (spec_step res)
                      (positions (first res) (last res - 1))
                      (t0, spec_base_cost ctx0 res) in
  snd st + spec_coeff_cost (fst st) (get (coeffs res) (last res)).

(** The bit-cost of signaling "no more coefficients" using
    [prob[band(last+1)][context bucket of the coefficient at last]], if
    [last < 15]. *)
Definition spec_end_cost (res : VP8Residual) : Z :=
  if last res <? 15
  then VP8BitCost 0 (prob res (VP8EncBands (last res + 1))
                          (ctx_of (get (coeffs res) (last res))) 0)
  else 0.

(** The bit-cost of signaling "no non-zero coefficient" using
    [prob[band(first)][ctx0]]. *)
Definition spec_empty_cost (ctx0 : Z) (res : VP8Residual) : Z :=
  VP8BitCost 0 (prob res (VP8EncBands (first res)) ctx0 0).

End Cost.

(** ** VP8EncDspCostInitSSE2 *)

(** The two function pointers of dsp.h that the entry point assigns. *)
Record CostDsp : Type := mkCostDsp {
  VP8SetResidualCoeffs : list Z -> VP8Residual -> VP8Residual;
  VP8GetResidualCost : Z -> VP8Residual -> Z
}.

(** One assignment to one of the two pointers. *)
Inductive dsp_write : Type :=
| Write_VP8SetResidualCoeffs
| Write_VP8GetResidualCost.

Section Dispatch.

Context {tables : CostTables}.

(** [VP8SetResidualCoeffs = SetResidualCoeffsSSE2;] and
    [VP8GetResidualCost = GetResidualCostSSE2;]. *)
Definition dsp_store (d : CostDsp) (w : dsp_write) : CostDsp :=
  match w with
  | Write_VP8SetResidualCoeffs =>
      mkCostDsp SetResidualCoeffsSSE2 (VP8GetResidualCost d)
  | Write_VP8GetResidualCost =>
      mkCostDsp (VP8SetResidualCoeffs d) GetResidualCostSSE2
  end.

(** The entry point; [WEBP_USE_SSE2] tells whether the macro is defined. *)
Definition VP8EncDspCostInitSSE2 (WEBP_USE_SSE2 : bool) (d : CostDsp)
  : CostDsp :=
  if WEBP_USE_SSE2 then
    let d := dsp_store d Write_VP8SetResidualCoeffs in
    let d := dsp_store d Write_VP8GetResidualCost in
    d
  else d.

(** What the function adds for a coefficient of magnitude [m] costed in
    the row [t], [VP8LevelFixedCosts[m] + t[min(m, 67)]], does not decrease
    with [m] inside a context bucket. *)
Definition coeff_cost_monotone (t : Z -> Z) : Prop :=
  forall m1 m2, 0 <= m1 <= m2 -> Z.min m1 2 = Z.min m2 2 ->
  VP8LevelFixedCosts m1 + t (Z.min m1 MAX_VARIABLE_LEVEL)
  <= VP8LevelFixedCosts m2 + t (Z.min m2 MAX_VARIABLE_LEVEL).

(** The fixed level costs of the coefficients of [c] at the positions
    [l], summed. *)
Definition fixed_costs_over (c : list Z) (l : list Z) : Z :=
  fold_right (fun i acc => VP8LevelFixedCosts (Z.abs (get c i)) + acc) 0 l.

End Dispatch.

(** ** Masks, positions and orders used in the proofs *)

(** Two bits per lane, set where the lane is zero... *)
Fixpoint zmask (l : list Z) : Z :=
  match l with
  | [] => 0
  | x :: r => (if x =? 0 then 3 else 0) + 4 * zmask r
  end.

(** ... and its complement, set where the lane is not zero. *)
Fixpoint nzmask (l : list Z) : Z :=
  match l with
  | [] => 0
  | x :: r => (if x =? 0 then 0 else 3) + 4 * nzmask r
  end.

(** Position of the last non-zero element, computed from the front. *)
Fixpoint last_nz (l : list Z) : Z :=
  match l with
  | [] => -1
  | x :: r =>
      let k := last_nz r in
      if 0 <=? k then k + 1 else if x =? 0 then -1 else 0
  end.

(** [k] is the greatest index of a non-zero element of [c], or [-1] when
    [c] has none. *)
Definition greatest_nonzero (c : list Z) (k : Z) : Prop :=
  -1 <= k < Z.of_nat (length c) /\
  (0 <= k -> get c k <> 0) /\
  (forall j, k < j < Z.of_nat (length c) -> get c j = 0).

(** Two blocks whose coefficients have, position by position, the same
    context bucket, the second with magnitudes at least as large. *)
Definition dominated (c1 c2 : list Z) : Prop :=
  forall i, ctx_of (get c1 i) = ctx_of (get c2 i) /\
            Z.abs (get c1 i) <= Z.abs (get c2 i).

(** ** Sample tables and blocks *)

(** The band of each scan position in the VP8 format, with the sentinel for
    position 16; the table [VP8EncBands] of the encoder. *)
Definition bands_vp8 (n : Z) : Z :=
  get [0; 1; 2; 3; 6; 4; 5; 6; 6; 6; 6; 6; 6; 6; 6; 7; 0] n.

(** A stand-in for [VP8BitCost]: the cost of a bit falls as its probability
    rises, and a bit of probability 128/256 costs 256. *)
Definition sample_bit_cost (bit proba : Z) : Z :=
  if bit =? 0 then 2 * (256 - proba) else 2 * proba.

(** Fixed costs and cost rows that grow with the level. *)
Definition sample_fixed_costs (level : Z) : Z := 16 * level.
Definition sample_cost (b ctx level : Z) : Z := 100 * b + 10 * ctx + level.

(** Cost rows that fall as the level grows. *)
Definition falling_cost (b ctx level : Z) : Z := 1000 - 10 * level.

(** Probabilities that differ from band to band and context to context. *)
Definition sample_prob (b ctx i : Z) : Z := 100 + 10 * b + ctx.

Definition sample_residual (first' : Z) : VP8Residual :=
  mkResidual first' (-1) [] sample_prob sample_cost.

Definition zero_block : list Z := repeat 0 16.
Definition dc_block (v : Z) : list Z := v :: repeat 0 15.
Definition mixed_block : list Z :=
  [3; 0; 5; 0; -3; 0; -100; 0; 0; 0; 0; 0; 0; 0; 0; 0].
Definition late_block : list Z :=
  [0; 0; 0; 0; 0; 7; 0; 0; 0; 0; 0; 0; 0; 0; 0; 0].

Definition falling_residual : VP8Residual :=
  mkResidual 0 (-1) [] sample_prob falling_cost.

(** Cost rows that grow with the level and fall as the context grows. *)
Definition ctx_falling_cost (b ctx level : Z) : Z := 100 * (2 - ctx) + level.
Definition ctx_falling_residual : VP8Residual :=
  mkResidual 0 (-1) [] sample_prob ctx_falling_cost.

(** Cost rows all zero, and an end of block that is improbable in band 1
    and probable elsewhere. *)
Definition late_end_prob (b ctx i : Z) : Z := if b =? 1 then 10 else 250.
Definition late_end_residual : VP8Residual :=
  mkResidual 0 (-1) [] late_end_prob (fun _ _ _ => 0).

(** Residuals as [SetResidualCoeffsSSE2] leaves them. *)
Definition res_mixed : VP8Residual :=
  SetResidualCoeffsSSE2 mixed_block (sample_residual 0).
Definition res_dc1 : VP8Residual :=
  SetResidualCoeffsSSE2 (dc_block 1) (sample_residual 0).
Definition res_zero1 : VP8Residual :=
  SetResidualCoeffsSSE2 zero_block (sample_residual 1).
Definition res_zero4 : VP8Residual :=
  SetResidualCoeffsSSE2 zero_block (sample_residual 4).
Definition res_late4 : VP8Residual :=
  SetResidualCoeffsSSE2 late_block (sample_residual 4).

(** A block that holds the least [int16_t], and one with a coefficient
    before position 1 only. *)
Definition min_block : list Z := [0; -32768; 1] ++ repeat 0 13.
Definition negated_mixed_block : list Z := map Z.opp mixed_block.

(** The magnitudes of [mixed_block] through position 6, other signs, and
    other coefficients after it. *)
Definition window_block : list Z :=
  [-3; 0; -5; 0; 3; 0; 100; 9; -9; 0; 0; 0; 0; 0; 0; 0].
Definition res_window : VP8Residual :=
  mkResidual 0 6 window_block sample_prob sample_cost.

(** [mixed_block] with another magnitude above the clamp at position 6. *)
Definition clamped_block : list Z :=
  [3; 0; 5; 0; -3; 0; 80; 0; 0; 0; 0; 0; 0; 0; 0; 0].
Definition res_clamped : VP8Residual :=
  SetResidualCoeffsSSE2 clamped_block (sample_residual 0).

(** Tables with bounded entries. *)
Definition bounded_cost (b ctx level : Z) : Z :=
  Z.min (Z.abs (sample_cost b ctx level)) 65535.
Definition res_bounded : VP8Residual :=
  SetResidualCoeffsSSE2 mixed_block
    (mkResidual 0 (-1) [] sample_prob bounded_cost).

Definition sample_tables : CostTables :=
  {| VP8EncBands := bands_vp8;
     VP8LevelFixedCosts := sample_fixed_costs;
     VP8BitCost := sample_bit_cost |}.

Definition bounded_tables : CostTables :=
  {| VP8EncBands := bands_vp8;
     VP8LevelFixedCosts := fun level => Z.min (Z.abs level) 2047;
     VP8BitCost := fun bit proba => 1 + Z.min (Z.abs proba) 255 |}.

(** Fixed level costs with a dip at level 3, and cost rows steep enough
    for the two together to grow with the level. *)
Definition dip_fixed_costs (level : Z) : Z :=
  16 * level - (if level =? 3 then 20 else 0).
Definition steep_cost (b ctx level : Z) : Z := 100 * level.
Definition steep_residual : VP8Residual :=
  mkResidual 0 (-1) [] sample_prob steep_cost.
Definition dip_tables : CostTables :=
  {| VP8EncBands := bands_vp8;
     VP8LevelFixedCosts := dip_fixed_costs;
     VP8BitCost := sample_bit_cost |}.

(** The same with fixed level costs all zero. *)
Definition flat_tables : CostTables :=
  {| VP8EncBands := bands_vp8;
     VP8LevelFixedCosts := fun _ => 0;
     VP8BitCost := sample_bit_cost |}.

(** * Properties *)

(** ** Lanes and bytes *)

Lemma sext16_wrap (x : Z) : int16_t x -> sext16 (x mod 65536) = x.
Proof.
  unfold int16_t, sext16; intros H.
  destruct (Z_lt_le_dec x 0) as [Hneg | Hpos].
  - replace (x mod 65536) with (x + 65536)
      by (apply Z.mod_unique with (q := -1); lia).
    destruct (Z.ltb_spec (x + 65536) 32768); lia.
  - rewrite Z.mod_small by lia.
    destruct (Z.ltb_spec x 32768); lia.
Qed.

Lemma epu16_bytes (l : list Z) :
  epu16_of_bytes (bytes_of_epi16 l) = map (fun x => x mod 65536) l.
Proof.
  induction l as [| x r IH]; [reflexivity |].
  cbn [bytes_of_epi16 epu16_of_bytes map]; rewrite IH; f_equal.
  change 65536 with (256 * 256).
  rewrite (Z.rem_mul_r x 256 256) by lia; reflexivity.
Qed.

Lemma epi16_bytes (l : list Z) :
  Forall int16_t l -> epi16_of_bytes (bytes_of_epi16 l) = l.
Proof.
  unfold epi16_of_bytes; rewrite epu16_bytes, map_map.
  induction 1 as [| x r Hx _ IH]; simpl; [reflexivity |].
  now rewrite sext16_wrap, IH.
Qed.

Lemma length_bytes_of_epi16 (l : list Z) :
  length (bytes_of_epi16 l) = (2 * length l)%nat.
Proof. induction l; simpl; lia. Qed.

Lemma map2_repeat_r (f : Z -> Z -> Z) (z : Z) (l : list Z) :
  map2 f l (repeat z (length l)) = map (fun x => f x z) l.
Proof. induction l; simpl; congruence. Qed.

Lemma length_map2 (f : Z -> Z -> Z) (a b : list Z) :
  length a = length b -> length (map2 f a b) = length a.
Proof.
  revert b; induction a as [| x a IH]; intros [| y b]; simpl; try easy.
  intros H; f_equal; apply IH; lia.
Qed.

Lemma zero_lanes : epi16_of_bytes _mm_setzero_si128 = repeat 0 8.
Proof. reflexivity. Qed.

Lemma block16_halves (c : list Z) :
  block16 c ->
  let lo := firstn 8 c in
  let hi := firstn 8 (skipn 8 c) in
  c = lo ++ hi /\ length lo = 8%nat /\ length hi = 8%nat /\
  Forall int16_t lo /\ Forall int16_t hi.
Proof.
  intros [Hlen Hall]; cbv zeta.
  assert (Hhi : firstn 8 (skipn 8 c) = skipn 8 c)
    by (apply firstn_all2; rewrite length_skipn; lia).
  rewrite Hhi, firstn_skipn.
  rewrite <- (firstn_skipn 8 c) in Hall; apply Forall_app in Hall.
  repeat split; try tauto.
  - rewrite length_firstn; lia.
  - rewrite length_skipn; lia.
Qed.

(** ** The bit mask of [SetResidualCoeffsSSE2] *)

Lemma movemask_cmpeq_zero (l : list Z) :
  Forall int16_t l -> length l = 8%nat ->
  _mm_movemask_epi8 (_mm_cmpeq_epi16 (bytes_of_epi16 l) _mm_setzero_si128)
  = zmask l.
Proof.
  intros Hall Hlen; unfold _mm_cmpeq_epi16.
  rewrite zero_lanes, epi16_bytes by assumption.
  rewrite <- Hlen, map2_repeat_r.
  clear; induction l as [| x r IH]; [reflexivity |].
  cbn [map bytes_of_epi16 _mm_movemask_epi8 zmask]; rewrite IH.
  destruct (x =? 0).
  - change (-1 mod 256 / 128) with 1; change ((-1 / 256) mod 256 / 128) with 1.
    lia.
  - change (0 mod 256 / 128) with 0; change ((0 / 256) mod 256 / 128) with 0.
    lia.
Qed.

Lemma zmask_nzmask (l : list Z) :
  zmask l + nzmask l = 4 ^ Z.of_nat (length l) - 1.
Proof.
  induction l as [| x r IH]; [reflexivity |].
  cbn [zmask nzmask length].
  rewrite Nat2Z.inj_succ, Z.pow_succ_r by apply Nat2Z.is_nonneg.
  set (p := 4 ^ Z.of_nat (length r)) in IH |- *.
  destruct (x =? 0); lia.
Qed.

Lemma zmask_nonneg (l : list Z) : 0 <= zmask l.
Proof.
  induction l as [| x r IH]; cbn [zmask]; [lia | destruct (x =? 0); lia].
Qed.

Lemma nzmask_nonneg (l : list Z) : 0 <= nzmask l.
Proof.
  induction l as [| x r IH]; cbn [nzmask]; [lia | destruct (x =? 0); lia].
Qed.

Lemma nzmask_app (a b : list Z) :
  nzmask (a ++ b) = nzmask a + 4 ^ Z.of_nat (length a) * nzmask b.
Proof.
  induction a as [| x a IH].
  { cbn [app nzmask length]; change (4 ^ Z.of_nat 0) with 1; lia. }
  cbn [app nzmask length].
  rewrite IH, Nat2Z.inj_succ, Z.pow_succ_r by apply Nat2Z.is_nonneg.
  set (p := 4 ^ Z.of_nat (length a)); lia.
Qed.

Lemma lor_high_low (hi lo : Z) :
  0 <= hi -> 0 <= lo < 65536 -> Z.lor (hi * 65536) lo = hi * 65536 + lo.
Proof.
  intros Hhi Hlo.
  rewrite <- Z.add_lor_land.
  enough (Z.land (hi * 65536) lo = 0) by lia.
  apply Z.bits_inj'; intros n Hn.
  rewrite Z.land_spec, Z.bits_0.
  destruct (Z_lt_le_dec n 16) as [Hlt | Hge].
  - change 65536 with (2 ^ 16); rewrite Z.mul_pow2_bits_low by lia.
    reflexivity.
  - destruct (Z.eq_dec lo 0) as [-> | Hnz].
    + rewrite Z.bits_0; apply andb_false_r.
    + rewrite (Z.bits_above_log2 lo n); [apply andb_false_r | lia |].
      apply Z.log2_lt_pow2; [lia |].
      apply Z.lt_le_trans with (2 ^ 16); [lia |].
      apply Z.pow_le_mono_r; lia.
Qed.

Lemma not_u32_sub (x : Z) :
  0 <= x < 2 ^ 32 -> not_u32 x = 2 ^ 32 - 1 - x.
Proof.
  intros H; unfold not_u32, Z.lnot.
  symmetry; apply Z.mod_unique with (q := -1); lia.
Qed.

Lemma nonzero_mask_nzmask (c : list Z) :
  block16 c -> nonzero_mask c = nzmask c.
Proof.
  intros Hc.
  destruct (block16_halves c Hc) as (Hsplit & Hl0 & Hl1 & Ha0 & Ha1).
  unfold nonzero_mask, _mm_loadu_si128; change (skipn 0 c) with c.
  set (lo := firstn 8 c) in Hsplit, Hl0, Hl1, Ha0, Ha1 |- *.
  set (hi := firstn 8 (skipn 8 c)) in Hsplit, Hl0, Hl1, Ha0, Ha1 |- *.
  rewrite !movemask_cmpeq_zero by assumption.
  pose proof (zmask_nzmask lo) as Elo; pose proof (zmask_nzmask hi) as Ehi.
  pose proof (zmask_nonneg lo); pose proof (zmask_nonneg hi).
  pose proof (nzmask_nonneg lo); pose proof (nzmask_nonneg hi).
  rewrite Hl0 in Elo; rewrite Hl1 in Ehi.
  change (4 ^ Z.of_nat 8) with 65536 in Elo, Ehi.
  unfold shl16_u32; rewrite Z.shiftl_mul_pow2 by lia.
  change (2 ^ 16) with 65536; change (2 ^ 32) with 4294967296.
  rewrite Z.mod_small by lia.
  rewrite lor_high_low by lia.
  rewrite not_u32_sub by (change (2 ^ 32) with 4294967296; lia).
  rewrite Hsplit, nzmask_app, Hl0.
  change (4 ^ Z.of_nat 8) with 65536; change (2 ^ 32) with 4294967296.
  lia.
Qed.

(** ** The position of the last non-zero coefficient *)

Lemma get_cons (x : Z) (r : list Z) (j : Z) :
  0 < j -> get (x :: r) j = get r (j - 1).
Proof.
  intros Hj; unfold get.
  replace (Z.to_nat j) with (S (Z.to_nat (j - 1))) by lia.
  reflexivity.
Qed.

Lemma greatest_nonzero_unique (c : list Z) (k1 k2 : Z) :
  greatest_nonzero c k1 -> greatest_nonzero c k2 -> k1 = k2.
Proof.
  intros (B1 & N1 & Z1) (B2 & N2 & Z2).
  destruct (Z.lt_trichotomy k1 k2) as [Hlt | [Heq | Hgt]]; [| assumption |].
  - exfalso; apply N2; [lia | apply Z1; lia].
  - exfalso; apply N1; [lia | apply Z2; lia].
Qed.

Lemma last_nz_greatest (l : list Z) : greatest_nonzero l (last_nz l).
Proof.
  induction l as [| x r (B & N & Zr)].
  - repeat split; simpl; try lia.
  - unfold greatest_nonzero; cbn [last_nz length].
    rewrite Nat2Z.inj_succ.
    destruct (Z.leb_spec 0 (last_nz r)) as [Hk | Hk].
    + repeat split; try lia.
      * intros _; rewrite get_cons by lia.
        replace (last_nz r + 1 - 1) with (last_nz r) by lia; auto.
      * intros j Hj; rewrite get_cons by lia; apply Zr; lia.
    + destruct (Z.eqb_spec x 0) as [-> | Hx].
      * repeat split; try lia.
        intros j Hj; destruct (Z.eq_dec j 0) as [-> | Hj0]; [reflexivity |].
        rewrite get_cons by lia; apply Zr; lia.
      * repeat split; try lia.
        -- intros _; exact Hx.
        -- intros j Hj; rewrite get_cons by lia; apply Zr; lia.
Qed.

Lemma scalar_last_greatest (c : list Z) :
  greatest_nonzero c (scalar_last (length c) c).
Proof.
  unfold greatest_nonzero.
  enough (G : forall n, (n <= length c)%nat ->
            -1 <= scalar_last n c < Z.of_nat n /\
            (0 <= scalar_last n c -> get c (scalar_last n c) <> 0) /\
            (forall j, scalar_last n c < j < Z.of_nat n -> get c j = 0))
    by (apply G; lia).
  induction n as [| n IH]; intros Hn.
  - simpl; repeat split; lia.
  - cbn [scalar_last].
    destruct (Z.eqb_spec (nth n c 0) 0) as [E | E].
    + destruct IH as (B & N & Zn); [lia |].
      split; [lia | split; [exact N |]].
      intros j Hj; destruct (Z.eq_dec j (Z.of_nat n)) as [-> | Hne].
      * unfold get; now rewrite Nat2Z.id.
      * apply Zn; lia.
    + repeat split; try lia.
      intros _; unfold get; now rewrite Nat2Z.id.
Qed.

Lemma log2_quad (m b : Z) :
  0 < m -> 0 <= b < 4 -> Z.log2 (b + 4 * m) = Z.log2 m + 2.
Proof.
  intros Hm Hb.
  pose proof (Z.log2_spec m Hm) as [Hlo Hhi].
  pose proof (Z.log2_nonneg m) as Hnn.
  apply Z.log2_unique; [lia |].
  replace (Z.succ (Z.log2 m + 2)) with (Z.succ (Z.log2 m) + 2) by lia.
  rewrite !Z.pow_add_r by lia.
  change (2 ^ 2) with 4.
  set (p := 2 ^ Z.log2 m) in Hlo, Hhi |- *.
  set (q := 2 ^ Z.succ (Z.log2 m)) in Hlo, Hhi |- *.
  lia.
Qed.

Lemma half_plus_one (a : Z) : Z.shiftr (a + 2) 1 = Z.shiftr a 1 + 1.
Proof.
  rewrite !Z.shiftr_div_pow2 by lia; change (2 ^ 1) with 2.
  replace (a + 2) with (a + 1 * 2) by lia.
  now rewrite Z.div_add by lia.
Qed.

(** The highest set bit of the mask, halved, is the last non-zero lane. *)
Lemma mask_last_nz (l : list Z) :
  (nzmask l = 0 <-> last_nz l = -1) /\
  (if nzmask l =? 0 then -1
   else Z.shiftr (BitsLog2Floor (nzmask l)) 1) = last_nz l.
Proof.
  unfold BitsLog2Floor.
  induction l as [| x r [IHz IH]]; [split; [tauto | reflexivity] |].
  pose proof (nzmask_nonneg r) as Hm.
  cbn [nzmask last_nz].
  destruct (Z.eqb_spec (nzmask r) 0) as [E0 | Epos].
  - assert (Hk : last_nz r = -1) by tauto.
    rewrite E0, Hk; change (0 <=? -1) with false; cbv iota.
    destruct (Z.eqb_spec x 0) as [Ex | Ex]; split; try reflexivity; try tauto.
    split; intros; lia.
  - assert (Hk : 0 <= last_nz r).
    { rewrite <- IH, Z.shiftr_div_pow2 by lia.
      apply Z.div_pos; [apply Z.log2_nonneg | reflexivity]. }
    destruct (Z.leb_spec 0 (last_nz r)) as [_ | ?]; [| lia].
    assert (Hb : 0 <= (if x =? 0 then 0 else 3) < 4)
      by (destruct (x =? 0); lia).
    set (b := if x =? 0 then 0 else 3) in Hb |- *.
    destruct (Z.eqb_spec (b + 4 * nzmask r) 0) as [? | _]; [lia |].
    split; [lia |].
    rewrite log2_quad, half_plus_one by lia.
    now rewrite IH.
Qed.

Lemma SetResidualCoeffsSSE2_last_nz (coeffs' : list Z) (res : VP8Residual) :
  block16 coeffs' -> last (SetResidualCoeffsSSE2 coeffs' res) = last_nz coeffs'.
Proof.
  intros Hc; unfold SetResidualCoeffsSSE2; cbn [set_coeffs set_last last].
  rewrite nonzero_mask_nzmask by assumption.
  apply mask_last_nz.
Qed.

(** C2. On every block of sixteen [int16_t] coefficients the accelerated
    scan stores in [res->last] the greatest index of a non-zero coefficient,
    [-1] exactly when all sixteen are zero, and so the value the scalar
    reverse scan stores. *)
Theorem SetResidualCoeffsSSE2_last (coeffs' : list Z) (res : VP8Residual) :
  block16 coeffs' ->
  let r := last (SetResidualCoeffsSSE2 coeffs' res) in
  -1 <= r <= 15 /\
  (r = -1 <-> forall i, 0 <= i < 16 -> get coeffs' i = 0) /\
  (0 <= r -> get coeffs' r <> 0 /\
             forall j, r < j < 16 -> get coeffs' j = 0) /\
  r = last (SetResidualCoeffs_scalar coeffs' res).
Proof.
  intros Hc r.
  assert (Hr : r = last_nz coeffs')
    by (now apply SetResidualCoeffsSSE2_last_nz).
  destruct Hc as [Hlen _].
  pose proof (last_nz_greatest coeffs') as G.
  pose proof (scalar_last_greatest coeffs') as S.
  rewrite Hlen in S.
  assert (Hs : r = scalar_last 16 coeffs')
    by (rewrite Hr; eapply greatest_nonzero_unique; eassumption).
  rewrite <- Hr in G; destruct G as (B & N & Zr); rewrite Hlen in B, Zr.
  change (Z.of_nat 16) with 16 in B, Zr.
  split; [lia | split; [split | split]].
  - intros E i Hi; apply Zr; lia.
  - intros Hz; destruct (Z_lt_le_dec r 0); [lia |].
    exfalso; apply N; [lia | apply Hz; lia].
  - intros Hr0; split; [auto | intros j Hj; apply Zr; lia].
  - exact Hs.
Qed.

(** ** The precomputed levels and contexts *)

Lemma map2_map (f : Z -> Z -> Z) (g h : Z -> Z) (l : list Z) :
  map2 f (map g l) (map h l) = map (fun x => f (g x) (h x)) l.
Proof. induction l; simpl; congruence. Qed.

Lemma Forall_map_int16 (f : Z -> Z) (l : list Z) :
  (forall x, int16_t x -> int16_t (f x)) ->
  Forall int16_t l -> Forall int16_t (map f l).
Proof. intros Hf; induction 1; simpl; constructor; auto. Qed.

Lemma min_epi16_zero (l : list Z) :
  Forall int16_t l -> length l = 8%nat ->
  _mm_min_epi16 (bytes_of_epi16 l) _mm_setzero_si128
  = bytes_of_epi16 (map (fun x => Z.min x 0) l).
Proof.
  intros Hall Hlen; unfold _mm_min_epi16.
  now rewrite zero_lanes, epi16_bytes, <- Hlen, map2_repeat_r.
Qed.

Lemma max_epi16_zero (l : list Z) :
  Forall int16_t l -> length l = 8%nat ->
  _mm_max_epi16 (bytes_of_epi16 l) _mm_setzero_si128
  = bytes_of_epi16 (map (fun x => Z.max x 0) l).
Proof.
  intros Hall Hlen; unfold _mm_max_epi16.
  now rewrite zero_lanes, epi16_bytes, <- Hlen, map2_repeat_r.
Qed.

(** [E0] and [E1]: the lanes hold the absolute values, as bit patterns. *)
Lemma abs_lanes (l : list Z) :
  Forall int16_t l -> length l = 8%nat ->
  _mm_sub_epi16 (_mm_max_epi16 (bytes_of_epi16 l) _mm_setzero_si128)
                (_mm_min_epi16 (bytes_of_epi16 l) _mm_setzero_si128)
  = bytes_of_epi16 (map Z.abs l).
Proof.
  intros Hall Hlen.
  rewrite min_epi16_zero, max_epi16_zero by assumption.
  unfold _mm_sub_epi16.
  rewrite !epi16_bytes
    by (apply Forall_map_int16; [unfold int16_t; lia | assumption]).
  rewrite map2_map; f_equal.
  apply map_ext; intros x; lia.
Qed.

Lemma abs_u16 (c : Z) : int16_t c -> Z.abs c mod 65536 = Z.abs c.
Proof. unfold int16_t; intros H; apply Z.mod_small; lia. Qed.

Lemma pack_min (c k : Z) :
  int16_t c -> 0 <= k <= 127 ->
  Z.min (lane_pack (sext16 (Z.abs c mod 65536))) k = Z.min (Z.abs c) k.
Proof.
  intros Hc Hk; rewrite abs_u16 by assumption.
  unfold int16_t in Hc; unfold lane_pack, sext16, sat8.
  destruct (Z.ltb_spec (Z.abs c) 32768) as [Hlt | Hge].
  - rewrite Z.mod_small by lia; lia.
  - replace (Z.abs c) with 32768 by lia.
    change (Z.max (-128) (Z.min 127 (32768 - 65536)) mod 256) with 128; lia.
Qed.

Lemma store_u8_whole (arr v : list Z) :
  length arr = 16%nat -> length v = 16%nat ->
  _mm_storeu_si128_u8 arr 0 v = v.
Proof.
  intros Ha Hv; unfold _mm_storeu_si128_u8.
  change (firstn 0 arr) with (@nil Z); change (0 + 16)%nat with 16%nat;
    cbn [app].
  rewrite skipn_all2 by lia; apply app_nil_r.
Qed.

Lemma store_u16_halves (arr v0 v1 : list Z) :
  length arr = 16%nat ->
  length (epu16_of_bytes v0) = 8%nat -> length (epu16_of_bytes v1) = 8%nat ->
  _mm_storeu_si128_u16 (_mm_storeu_si128_u16 arr 0 v0) 8 v1
  = epu16_of_bytes v0 ++ epu16_of_bytes v1.
Proof.
  intros Ha H0 H1; unfold _mm_storeu_si128_u16.
  change (firstn 0 arr) with (@nil Z); change (0 + 8)%nat with 8%nat;
    change (8 + 8)%nat with 16%nat; cbn [app].
  set (A := epu16_of_bytes v0) in H0 |- *.
  set (B := epu16_of_bytes v1) in H1 |- *.
  rewrite firstn_app, firstn_all2 by lia.
  replace (8 - length A)%nat with 0%nat by lia; cbn [firstn].
  rewrite app_nil_r, (skipn_all2 (n := 16))
    by (rewrite length_app, length_skipn; lia).
  now rewrite app_nil_r.
Qed.

Lemma get_map (f : Z -> Z) (l : list Z) (n : Z) :
  f 0 = 0 -> get (map f l) n = f (get l n).
Proof.
  intros Hf; unfold get.
  rewrite <- Hf at 1; apply map_nth.
Qed.

(** What the block leaves in the three local arrays. *)
Lemma precompute_arrays (s : Frame) :
  block16 (coeffs (f_res s)) -> frame_ok s ->
  precompute s =
  mkFrame (f_res s)
          (map level_of (coeffs (f_res s)))
          (map ctx_of (coeffs (f_res s)))
          (map Z.abs (coeffs (f_res s))).
Proof.
  intros Hc (Hl & Hx & Ha).
  destruct (block16_halves _ Hc) as (Hsplit & Hl0 & Hl1 & Ha0 & Ha1).
  destruct Hc as [Hlen Hall].
  unfold precompute, _mm_loadu_si128.
  change (skipn 0 (coeffs (f_res s))) with (coeffs (f_res s)).
  set (c := coeffs (f_res s)) in Hsplit, Hl0, Hl1, Ha0, Ha1, Hlen, Hall |- *.
  set (lo := firstn 8 c) in Hsplit, Hl0, Hl1, Ha0, Ha1 |- *.
  set (hi := firstn 8 (skipn 8 c)) in Hsplit, Hl0, Hl1, Ha0, Ha1 |- *.
  rewrite !abs_lanes by assumption.
  assert (HF : _mm_packs_epi16 (bytes_of_epi16 (map Z.abs lo))
                               (bytes_of_epi16 (map Z.abs hi))
               = map (fun x => lane_pack (sext16 (Z.abs x mod 65536))) c).
  { unfold _mm_packs_epi16, epi16_of_bytes.
    rewrite !epu16_bytes, Hsplit, !map_app, !map_map.
    reflexivity. }
  rewrite HF.
  assert (Hmin : forall k, 0 <= k <= 127 ->
            _mm_min_epu8
              (map (fun x => lane_pack (sext16 (Z.abs x mod 65536))) c)
              (_mm_set1_epi8 k)
            = map (fun x => Z.min (Z.abs x) k) c).
  { intros k Hk; unfold _mm_min_epu8, _mm_set1_epi8.
    rewrite Z.mod_small by lia.
    replace 16%nat
      with (length (map (fun x => lane_pack (sext16 (Z.abs x mod 65536))) c))
      by (rewrite length_map; exact Hlen).
    rewrite map2_repeat_r, map_map.
    apply map_ext_Forall; revert Hall; apply Forall_impl.
    intros x Hx'; now apply pack_min. }
  rewrite !Hmin by (unfold MAX_VARIABLE_LEVEL; lia).
  unfold set_abs_levels, set_levels, set_ctxs;
    cbn [f_res levels ctxs abs_levels].
  rewrite !store_u8_whole by (rewrite ?length_map; assumption).
  rewrite store_u16_halves
    by (rewrite ?epu16_bytes, ?length_map; assumption).
  rewrite !epu16_bytes, <- !map_app, <- Hsplit, map_map.
  f_equal.
  apply map_ext_Forall; revert Hall; apply Forall_impl.
  intros x Hx'; now apply abs_u16.
Qed.

(** C9. For a coefficient [c] in [-32767, 32767] the block stores exactly
    [|c|] in [abs_levels], [min(|c|, 2)] in [ctxs] and [min(|c|, 67)] in
    [levels]: the difference of the maximum and the minimum with zero is
    [|c|] as a signed 16-bit lane, and the saturation of the pack to a
    signed byte (at most 127) leaves the minimum with 2 and with 67 as it
    is. *)
Theorem precompute_exact (s : Frame) (i : Z) :
  block16 (coeffs (f_res s)) -> frame_ok s -> 0 <= i < 16 ->
  -32767 <= get (coeffs (f_res s)) i <= 32767 ->
  let c := get (coeffs (f_res s)) i in
  let s' := precompute s in
  get (abs_levels s') i = Z.abs c /\
  get (ctxs s') i = Z.min (Z.abs c) 2 /\
  get (levels s') i = Z.min (Z.abs c) 67 /\
  lane_abs c = Z.abs c /\
  Z.min (lane_pack (lane_abs c)) 2 = Z.min (Z.abs c) 2 /\
  Z.min (lane_pack (lane_abs c)) 67 = Z.min (Z.abs c) 67.
Proof.
  intros Hc Hs Hi Hr c s'.
  subst s'; rewrite precompute_arrays by assumption.
  cbn [abs_levels ctxs levels]; rewrite !get_map by reflexivity.
  fold c in Hr |- *.
  assert (Ha : lane_abs c = Z.abs c).
  { unfold lane_abs, sext16.
    replace (Z.max c 0 - Z.min c 0) with (Z.abs c) by lia.
    rewrite Z.mod_small by lia.
    destruct (Z.ltb_spec (Z.abs c) 32768); lia. }
  assert (Hp : lane_pack (Z.abs c) = Z.min (Z.abs c) 127).
  { unfold lane_pack, sat8; rewrite Z.mod_small; lia. }
  rewrite Ha, Hp.
  repeat split; lia.
Qed.

(** What [SetResidualCoeffsSSE2] guarantees to the cost function: a block
    whose first considered position is not after its last non-zero one. *)
Lemma SetResidualCoeffsSSE2_first_le_last (coeffs' : list Z)
  (res : VP8Residual) :
  block16 coeffs' -> first_ok coeffs' res ->
  first res = 0 \/ first res = 1 ->
  let r := SetResidualCoeffsSSE2 coeffs' res in
  0 <= last r -> first r <= last r.
Proof.
  intros Hc Hok Hf r Hl.
  assert (Hr : last r = last_nz coeffs')
    by (now apply SetResidualCoeffsSSE2_last_nz).
  change (first r) with (first res).
  destruct (last_nz_greatest coeffs') as (_ & N & _).
  destruct Hok as [E | E]; [lia |].
  destruct Hf as [E' | E']; [lia |].
  destruct (Z.eq_dec (last r) 0) as [E0 | ?]; [| lia].
  exfalso; apply N; [lia |].
  now rewrite <- Hr, E0.
Qed.

Lemma dominated_last_nz (c1 c2 : list Z) :
  length c1 = length c2 -> dominated c1 c2 -> last_nz c1 = last_nz c2.
Proof.
  intros Hlen Hdom.
  assert (Hz : forall i, get c1 i = 0 <-> get c2 i = 0).
  { intros i; destruct (Hdom i) as [Hctx _].
    unfold ctx_of in Hctx; lia. }
  apply (greatest_nonzero_unique c2); [| apply last_nz_greatest].
  destruct (last_nz_greatest c1) as (B & N & Zr).
  rewrite Hlen in B, Zr.
  split; [exact B | split].
  - intros Hk E; apply (N Hk), Hz, E.
  - intros j Hj; apply Hz, Zr, Hj.
Qed.

Lemma dominated_of_range (c1 c2 : list Z) :
  block16 c1 -> block16 c2 ->
  (forall i, 0 <= i < 16 ->
             ctx_of (get c1 i) = ctx_of (get c2 i) /\
             Z.abs (get c1 i) <= Z.abs (get c2 i)) ->
  dominated c1 c2.
Proof.
  intros [L1 _] [L2 _] H i.
  destruct (Z_lt_le_dec i 0) as [Hneg | Hpos].
  - replace (get c1 i) with (get c1 0)
      by (unfold get; f_equal; lia).
    replace (get c2 i) with (get c2 0)
      by (unfold get; f_equal; lia).
    apply H; lia.
  - destruct (Z_lt_le_dec i 16) as [Hlt | Hge]; [apply H; lia |].
    unfold get; rewrite !nth_overflow by lia.
    split; [reflexivity | lia].
Qed.

(** ** The cost function *)

Section CostProperties.

Context {tables : CostTables}.

Local Abbreviation GetCost := GetResidualCostSSE2.

(** *** The function in terms of its stages *)

Lemma GetResidualCostSSE2_empty (ctx0 : Z) (res : VP8Residual) :
  last res < 0 ->
  GetCost ctx0 res = VP8BitCost 0 (entry_p0 ctx0 res).
Proof.
  intros Hl; unfold GetResidualCostSSE2, GetResidualCostSSE2_frame.
  cbn [enter f_res].
  destruct (Z.ltb_spec (last res) 0); [reflexivity | lia].
Qed.

Lemma precompute_res (s : Frame) : f_res (precompute s) = f_res s.
Proof. reflexivity. Qed.

Lemma GetResidualCostSSE2_stages (ctx0 : Z) (res : VP8Residual) :
  0 <= last res ->
  GetCost ctx0 res = cost_from (base_cost ctx0 res) ctx0 res.
Proof.
  intros Hl.
  unfold GetResidualCostSSE2, GetResidualCostSSE2_frame, cost_from,
    base_cost, entry_p0, accumulate, terminate, working_frame.
  cbn [enter f_res].
  destruct (Z.ltb_spec (last res) 0); [lia |].
  rewrite precompute_res; cbn [enter f_res].
  destruct (residual_loop _ _ _ _ _) as [[n t] c]; cbn [fst snd].
  destruct (n <? 15); cbn [fst]; lia.
Qed.

Lemma enter_frame_ok (res : VP8Residual) : frame_ok (enter res (repeat 0 48)).
Proof. repeat split. Qed.

Lemma working_frame_arrays (res : VP8Residual) :
  block16 (coeffs res) ->
  working_frame res =
  mkFrame res (map level_of (coeffs res)) (map ctx_of (coeffs res))
          (map Z.abs (coeffs res)).
Proof.
  intros Hc; unfold working_frame.
  rewrite precompute_arrays; [reflexivity | exact Hc | apply enter_frame_ok].
Qed.

(** The loop never stops for lack of fuel: it leaves when [n < last] fails,
    having added the cost of each position it passed. *)
Lemma residual_loop_fold (res : VP8Residual) (fuel : nat) :
  forall (n : Z) (t : Z -> Z) (cost : Z),
  fuel = Z.to_nat (last res - n) ->
  let s := mkFrame res (map level_of (coeffs res)) (map ctx_of (coeffs res))
                   (map Z.abs (coeffs res)) in
  let st := fold_left (spec_step res) (upfrom n fuel) (t, cost) in
  residual_loop s fuel n t cost = (Z.max n (last res), fst st, snd st).
Proof.
  induction fuel as [| fuel IH]; intros n t cost Hf; cbv zeta.
  - cbn [residual_loop upfrom fold_left fst snd].
    replace (Z.max n (last res)) with n by lia; reflexivity.
  - cbn [residual_loop upfrom fold_left f_res levels ctxs abs_levels].
    destruct (Z.ltb_spec n (last res)) as [Hlt | Hge]; [| lia].
    rewrite !get_map by reflexivity.
    rewrite IH by lia.
    replace (Z.max (n + 1) (last res)) with (Z.max n (last res)) by lia.
    reflexivity.
Qed.

Lemma accumulate_fold (res : VP8Residual) (n : Z) (t : Z -> Z) (cost : Z) :
  block16 (coeffs res) ->
  let st := fold_left (spec_step res)
                      (upfrom n (Z.to_nat (last res - n))) (t, cost) in
  accumulate (working_frame res) n t cost
  = (Z.max n (last res),
     snd st + spec_coeff_cost (fst st)
                              (get (coeffs res) (Z.max n (last res)))).
Proof.
  intros Hc; cbv zeta; unfold accumulate.
  rewrite working_frame_arrays by assumption; cbn [f_res].
  rewrite residual_loop_fold by reflexivity.
  cbn [levels abs_levels]; rewrite !get_map by reflexivity.
  reflexivity.
Qed.

Lemma terminate_ctx (res : VP8Residual) (n : Z) :
  block16 (coeffs res) ->
  terminate (working_frame res) n
  = if n <? 15
    then VP8BitCost 0 (prob res (VP8EncBands (n + 1))
                            (ctx_of (get (coeffs res) n)) 0)
    else 0.
Proof.
  intros Hc; unfold terminate.
  rewrite working_frame_arrays by assumption; cbn [f_res ctxs].
  now rewrite get_map by reflexivity.
Qed.

(** The accumulator enters every sum as a summand. *)
Lemma fold_spec_step_shift (res : VP8Residual) (l : list Z) :
  forall (t : Z -> Z) (cost d : Z),
  fold_left (spec_step res) l (t, cost + d)
  = (fst (fold_left (spec_step res) l (t, cost)),
     snd (fold_left (spec_step res) l (t, cost)) + d).
Proof.
  induction l as [| n l IH]; intros t cost d; [reflexivity |].
  cbn [fold_left]; unfold spec_step at 2 4 6; cbn [fst snd].
  replace (cost + d + spec_coeff_cost t (get (coeffs res) n))
    with (cost + spec_coeff_cost t (get (coeffs res) n) + d) by lia.
  apply IH.
Qed.

Lemma positions_to_last (a b : Z) :
  positions a (b - 1) = upfrom a (Z.to_nat (b - a)).
Proof. unfold positions; f_equal; lia. Qed.

Lemma residual_loop_shift (s : Frame) (fuel : nat) :
  forall (n : Z) (t : Z -> Z) (cost d : Z),
  residual_loop s fuel n t (cost + d)
  = (fst (residual_loop s fuel n t cost),
     snd (residual_loop s fuel n t cost) + d).
Proof.
  induction fuel as [| fuel IH]; intros n t cost d; [reflexivity |].
  cbn [residual_loop].
  destruct (n <? last (f_res s)); [| reflexivity].
  rewrite <- IH; f_equal; lia.
Qed.

Lemma cost_from_shift (cost0 ctx0 : Z) (res : VP8Residual) :
  cost_from cost0 ctx0 res = cost0 + cost_from 0 ctx0 res.
Proof.
  unfold cost_from, accumulate.
  replace cost0 with (0 + cost0) at 1 2 by lia.
  rewrite residual_loop_shift.
  destruct (residual_loop _ _ _ _ 0) as [[n t] c]; cbn [fst snd]; lia.
Qed.

(** With [first <= last] the loop ends at [n = last]. *)
Lemma cost_from_last (cost0 ctx0 : Z) (res : VP8Residual) :
  block16 (coeffs res) -> first res <= last res ->
  cost_from cost0 ctx0 res
  = cost_through_last cost0 ctx0 res
    + terminate (working_frame res) (last res).
Proof.
  intros Hc Hfl; unfold cost_from, cost_through_last.
  rewrite accumulate_fold by assumption; cbn [fst snd].
  now replace (Z.max (first res) (last res)) with (last res) by lia.
Qed.

Lemma cost_through_last_spec (ctx0 : Z) (res : VP8Residual) :
  block16 (coeffs res) -> first res <= last res ->
  VP8EncBands (first res) = first res ->
  cost_through_last (base_cost ctx0 res) ctx0 res = spec_coeffs_cost ctx0 res.
Proof.
  intros Hc Hfl Hb; unfold cost_through_last, spec_coeffs_cost.
  rewrite accumulate_fold by assumption; cbn [snd].
  replace (Z.max (first res) (last res)) with (last res) by lia.
  rewrite positions_to_last.
  unfold spec_base_cost, base_cost, entry_p0; now rewrite Hb.
Qed.

Lemma band_first (res : VP8Residual) :
  VP8EncBands 0 = 0 -> VP8EncBands 1 = 1 ->
  first res = 0 \/ first res = 1 ->
  VP8EncBands (first res) = first res.
Proof. intros H0 H1 [E | E]; rewrite E; assumption. Qed.

(** *** The claims on [GetResidualCostSSE2] *)

(** C1, amended. For a block with [last >= 0] and [first] in {0,1} (where
    the band of [first] is [first]) that starts no later than it ends, the
    function returns the base cost plus, for each position [n] from [first]
    to [last-1], [levelFixedCost[|coeffs[n]|] + t[min(|coeffs[n]|,67)]] with
    [t] then advanced to [cost[band(n+1)][min(|coeffs[n]|,2)]], plus the
    same term at [n = last], plus, when [last < 15], the bit-cost of
    signaling "no more coefficients" from
    [prob[band(last+1)][min(|coeffs[last]|,2)]]; context and clamped level
    of a position come from its own coefficient only. *)
Theorem GetResidualCostSSE2_sum (ctx0 : Z) (res : VP8Residual) :
  block16 (coeffs res) ->
  VP8EncBands 0 = 0 -> VP8EncBands 1 = 1 ->
  first res = 0 \/ first res = 1 ->
  0 <= last res -> first res <= last res ->
  GetCost ctx0 res = spec_coeffs_cost ctx0 res + spec_end_cost res.
Proof.
  intros Hc H0 H1 Hf Hl Hfl.
  pose proof (band_first res H0 H1 Hf) as Hb.
  rewrite GetResidualCostSSE2_stages, cost_from_last by assumption.
  rewrite cost_through_last_spec, terminate_ctx by assumption.
  reflexivity.
Qed.

(** C3, amended. For a residual with [last < 0] and [first] in {0,1} the
    function returns exactly the bit-cost of signaling "no non-zero
    coefficient" from [prob[band(first)][ctx0]]; the base cost is not part
    of it, whatever [ctx0]. *)
Theorem GetResidualCostSSE2_empty_block (ctx0 : Z) (res : VP8Residual) :
  VP8EncBands 0 = 0 -> VP8EncBands 1 = 1 ->
  first res = 0 \/ first res = 1 ->
  last res < 0 ->
  GetCost ctx0 res = spec_empty_cost ctx0 res.
Proof.
  intros H0 H1 Hf Hl.
  rewrite GetResidualCostSSE2_empty by assumption.
  unfold spec_empty_cost, entry_p0.
  now rewrite (band_first res H0 H1 Hf).
Qed.

(** C4. For [last >= 0] the bit-cost [VP8BitCost(1, p0)] of signaling "at
    least one non-zero coefficient" is a summand of the result exactly when
    [ctx0 = 0]: the result is that cost plus what the function computes from
    [cost = 0] when [ctx0 = 0], and just the latter when [ctx0] is 1 or 2. *)
Theorem GetResidualCostSSE2_base_term (ctx0 : Z) (res : VP8Residual) :
  0 <= last res ->
  (ctx0 = 0 ->
   GetCost ctx0 res
   = VP8BitCost 1 (entry_p0 ctx0 res) + cost_from 0 ctx0 res) /\
  (ctx0 = 1 \/ ctx0 = 2 -> GetCost ctx0 res = cost_from 0 ctx0 res).
Proof.
  intros Hl.
  rewrite GetResidualCostSSE2_stages, cost_from_shift by assumption.
  unfold base_cost; split.
  - intros ->; reflexivity.
  - intros [-> | ->]; reflexivity.
Qed.

(** C5. For [0 <= last < 15] the function adds to the cost accumulated
    through the coefficient at [last] one terminating term, the bit-cost of
    signaling "no more coefficients" from [prob[band(last+1)][c]] with [c]
    the context bucket [min(|coeffs[last]|, 2)]; for [last = 15] it adds
    nothing. *)
Theorem GetResidualCostSSE2_terminating_term (ctx0 : Z) (res : VP8Residual) :
  block16 (coeffs res) ->
  0 <= last res -> first res <= last res ->
  (last res < 15 ->
   GetCost ctx0 res
   = cost_through_last (base_cost ctx0 res) ctx0 res
     + VP8BitCost 0 (prob res (VP8EncBands (last res + 1))
                          (Z.min (Z.abs (get (coeffs res) (last res))) 2)
                          0)) /\
  (last res = 15 ->
   GetCost ctx0 res = cost_through_last (base_cost ctx0 res) ctx0 res).
Proof.
  intros Hc Hl Hfl.
  rewrite GetResidualCostSSE2_stages, cost_from_last, terminate_ctx
    by assumption.
  split; intros H15.
  - destruct (Z.ltb_spec (last res) 15); [reflexivity | lia].
  - destruct (Z.ltb_spec (last res) 15); lia.
Qed.

(** C6, amended. For [first] in {0,1} the probability read on entry, which
    serves the base cost and the cost of an empty block, is
    [prob[band(first)][ctx0]]: the function selects the row by the position
    [first] itself, and that is the band of [first] for these two
    positions. *)
Theorem entry_p0_band (ctx0 : Z) (res : VP8Residual) :
  VP8EncBands 0 = 0 -> VP8EncBands 1 = 1 ->
  first res = 0 \/ first res = 1 ->
  entry_p0 ctx0 res = prob res (VP8EncBands (first res)) ctx0 0 /\
  base_cost ctx0 res = spec_base_cost ctx0 res /\
  (last res < 0 -> GetCost ctx0 res = spec_empty_cost ctx0 res) /\
  (0 <= last res ->
   GetCost ctx0 res = spec_base_cost ctx0 res + cost_from 0 ctx0 res).
Proof.
  intros H0 H1 Hf.
  pose proof (band_first res H0 H1 Hf) as Hb.
  unfold spec_base_cost, spec_empty_cost, base_cost, entry_p0.
  rewrite Hb; repeat split.
  - apply GetResidualCostSSE2_empty.
  - intros Hl.
    now rewrite GetResidualCostSSE2_stages, cost_from_shift by assumption.
Qed.

(** Only the position the loop starts at is costed with the row chosen by
    [ctx0]. *)
Lemma fold_initial_row (res : VP8Residual) (k : nat) (n m : Z)
  (t t' : Z -> Z) (cost : Z) :
  (k = 0%nat -> m = n) ->
  let total (r : Z -> Z) :=
    let st := fold_left (spec_step res) (upfrom n k) (r, cost) in
    snd st + spec_coeff_cost (fst st) (get (coeffs res) m) in
  total t - total t'
  = t (level_of (get (coeffs res) n)) - t' (level_of (get (coeffs res) n)).
Proof.
  intros Hm; cbv beta zeta.
  destruct k as [| k].
  - rewrite Hm by reflexivity.
    cbn [upfrom fold_left fst snd]; unfold spec_coeff_cost; lia.
  - cbn [upfrom fold_left].
    set (x := get (coeffs res) n).
    set (row := cost_row res (VP8EncBands (n + 1)) (ctx_of x)).
    change (spec_step res (t, cost) n)
      with (row, cost + spec_coeff_cost t x).
    change (spec_step res (t', cost) n)
      with (row, cost + spec_coeff_cost t' x).
    rewrite !fold_spec_step_shift; cbn [fst snd].
    unfold spec_coeff_cost; lia.
Qed.

(** C7, amended. For a block with [last >= 0] and a context [c] in {1,2},
    the cost from [ctx0 = 0] minus the cost from [ctx0 = c] is the
    "is-non-zero" bit cost [VP8BitCost(1, prob[first][0][0])] plus the
    difference of the two initial cost rows, [cost[first][0][L] -
    cost[first][c][L]], at the clamped level [L] of the coefficient at
    [first]. *)
Theorem GetResidualCostSSE2_ctx0_difference (c : Z) (res : VP8Residual) :
  block16 (coeffs res) -> 0 <= last res -> c = 1 \/ c = 2 ->
  let L := level_of (get (coeffs res) (first res)) in
  GetCost 0 res - GetCost c res
  = VP8BitCost 1 (prob res (first res) 0 0)
    + (cost res (first res) 0 L - cost res (first res) c L).
Proof.
  intros Hc Hl Hctx L.
  rewrite !GetResidualCostSSE2_stages by assumption.
  rewrite (cost_from_shift (base_cost 0 res)).
  rewrite (cost_from_shift (base_cost c res)).
  assert (Ec : base_cost c res = 0)
    by (destruct Hctx as [-> | ->]; reflexivity).
  rewrite Ec.
  change (base_cost 0 res) with (VP8BitCost 1 (prob res (first res) 0 0)).
  unfold cost_from; rewrite !accumulate_fold by assumption; cbn [fst snd].
  pose proof (fold_initial_row res (Z.to_nat (last res - first res))
                (first res) (Z.max (first res) (last res))
                (cost_row res (first res) 0) (cost_row res (first res) c) 0)
    as D.
  cbv beta zeta in D; unfold cost_row in D |- *; subst L.
  lia.
Qed.

Lemma spec_coeff_cost_mono (t : Z -> Z) (x1 x2 : Z) :
  coeff_cost_monotone t ->
  ctx_of x1 = ctx_of x2 -> Z.abs x1 <= Z.abs x2 ->
  spec_coeff_cost t x1 <= spec_coeff_cost t x2.
Proof.
  intros Ht Hctx Hx; unfold spec_coeff_cost, level_of.
  apply Ht; [lia | exact Hctx].
Qed.

Lemma fold_spec_step_mono (r1 r2 : VP8Residual) (l : list Z) :
  cost r1 = cost r2 ->
  dominated (coeffs r1) (coeffs r2) ->
  (forall b ctx, coeff_cost_monotone (cost r1 b ctx)) ->
  forall (t : Z -> Z) (a1 a2 : Z),
  coeff_cost_monotone t -> a1 <= a2 ->
  let st1 := fold_left (spec_step r1) l (t, a1) in
  let st2 := fold_left (spec_step r2) l (t, a2) in
  fst st1 = fst st2 /\ coeff_cost_monotone (fst st1) /\ snd st1 <= snd st2.
Proof.
  intros Hcost Hdom Hrows.
  induction l as [| n l IH]; intros t a1 a2 Ht Ha; cbv zeta.
  - cbn [fold_left fst snd]; auto.
  - cbn [fold_left]; unfold spec_step at 2 4 6 8 10; cbn [fst snd].
    destruct (Hdom n) as [Hctx Habs].
    rewrite Hcost, Hctx.
    apply IH.
    + rewrite <- Hcost; apply Hrows.
    + pose proof (spec_coeff_cost_mono t _ _ Ht Hctx Habs); lia.
Qed.

(** The cost does not decrease from a block to one that dominates it when
    what each row adds for a coefficient does not decrease with the
    magnitude inside a context bucket. *)
Lemma GetResidualCostSSE2_dominated (ctx0 : Z) (c1 c2 : list Z)
  (res : VP8Residual) :
  block16 c1 -> block16 c2 -> dominated c1 c2 ->
  (forall b ctx, coeff_cost_monotone (cost res b ctx)) ->
  GetCost ctx0 (SetResidualCoeffsSSE2 c1 res)
  <= GetCost ctx0 (SetResidualCoeffsSSE2 c2 res).
Proof.
  intros H1 H2 Hdom Hrows.
  set (r1 := SetResidualCoeffsSSE2 c1 res).
  set (r2 := SetResidualCoeffsSSE2 c2 res).
  assert (Hl1 : last r1 = last_nz c1)
    by (now apply SetResidualCoeffsSSE2_last_nz).
  assert (Hl2 : last r2 = last_nz c2)
    by (now apply SetResidualCoeffsSSE2_last_nz).
  assert (Hl : last r1 = last r2).
  { rewrite Hl1, Hl2; apply dominated_last_nz; [| assumption].
    destruct H1 as [-> _], H2 as [-> _]; reflexivity. }
  destruct (Z_lt_le_dec (last r1) 0) as [Hneg | Hpos].
  - rewrite !GetResidualCostSSE2_empty by lia.
    apply Z.le_refl.
  - rewrite !GetResidualCostSSE2_stages by lia.
    unfold cost_from.
    rewrite !accumulate_fold, !terminate_ctx by assumption; cbn [fst snd].
    rewrite <- Hl.
    change (first r2) with (first r1); change (coeffs r1) with c1;
      change (coeffs r2) with c2; change (prob r2) with (prob r1).
    change (base_cost ctx0 r2) with (base_cost ctx0 r1).
    change (cost_row r2 (first r1) ctx0) with (cost_row r1 (first r1) ctx0).
    set (m := Z.max (first r1) (last r1)).
    destruct (Hdom m) as [Hctx Habs]; rewrite <- Hctx.
    destruct (fold_spec_step_mono r1 r2
                (upfrom (first r1) (Z.to_nat (last r1 - first r1)))
                eq_refl Hdom Hrows
                (cost_row r1 (first r1) ctx0)
                (base_cost ctx0 r1) (base_cost ctx0 r1)
                (Hrows _ _) (Z.le_refl _)) as (Et & Mt & Le).
    rewrite <- Et.
    pose proof (spec_coeff_cost_mono _ _ _ Mt Hctx Habs).
    lia.
Qed.

(** C8, amended. Take two blocks that differ at one position [k] only,
    where the second holds a magnitude at least as large and in the same
    context bucket ([min(|.|, 2)] equal), and tables for which what the
    function adds for a coefficient of magnitude [m] in a row,
    [VP8LevelFixedCosts[m] + cost[b][ctx][min(m, 67)]], does not decrease
    with [m] inside a context bucket.  Then the cost of the second block,
    with [last] recomputed, is at least the cost of the first. *)
Theorem GetResidualCostSSE2_monotone (ctx0 k : Z) (c1 c2 : list Z)
  (res : VP8Residual) :
  block16 c1 -> block16 c2 -> 0 <= k < 16 ->
  (forall i, 0 <= i < 16 -> i <> k -> get c1 i = get c2 i) ->
  Z.abs (get c1 k) <= Z.abs (get c2 k) ->
  Z.min (Z.abs (get c1 k)) 2 = Z.min (Z.abs (get c2 k)) 2 ->
  (forall b ctx m1 m2, 0 <= m1 <= m2 -> Z.min m1 2 = Z.min m2 2 ->
     VP8LevelFixedCosts m1 + cost res b ctx (Z.min m1 67)
     <= VP8LevelFixedCosts m2 + cost res b ctx (Z.min m2 67)) ->
  GetCost ctx0 (SetResidualCoeffsSSE2 c1 res)
  <= GetCost ctx0 (SetResidualCoeffsSSE2 c2 res).
Proof.
  intros H1 H2 Hk Hoff Habs Hctx Hrows.
  apply GetResidualCostSSE2_dominated; try assumption.
  apply dominated_of_range; try assumption.
  intros i Hi; destruct (Z.eq_dec i k) as [-> | Hne].
  - split; assumption.
  - rewrite (Hoff i Hi Hne); split; [reflexivity | lia].
Qed.

(** X13. The result does not depend on what the local arrays hold on
    entry: the three arrays are written in full before they are read. *)
Lemma GetResidualCostSSE2_any_stack (ctx0 : Z) (res : VP8Residual)
  (stack : list Z) :
  block16 (coeffs res) -> length stack = 48%nat ->
  fst (GetResidualCostSSE2_frame ctx0 (enter res stack)) = GetCost ctx0 res.
Proof.
  intros Hc Hs; unfold GetResidualCostSSE2, GetResidualCostSSE2_frame.
  cbn [enter f_res].
  destruct (last res <? 0); [reflexivity |].
  assert (Hok : frame_ok (enter res stack)).
  { unfold frame_ok, enter; cbn [levels ctxs abs_levels].
    rewrite !length_firstn, !length_skipn; lia. }
  fold (enter res stack); fold (enter res (repeat 0 48)).
  rewrite (precompute_arrays (enter res stack)) by assumption.
  rewrite (precompute_arrays (enter res (repeat 0 48)))
    by (try assumption; apply enter_frame_ok).
  reflexivity.
Qed.

(** C10. [SetResidualCoeffsSSE2] writes the fields [last] and [coeffs] of
    the residual and leaves [first] and the references to the probability
    and cost tables as they are; [GetResidualCostSSE2] writes its three
    local arrays only: the residual, with its coefficients and tables, is
    the same after the call. *)
Theorem frame_effects (coeffs' : list Z) (res : VP8Residual) (ctx0 : Z)
  (s : Frame) :
  (let r := SetResidualCoeffsSSE2 coeffs' res in
   first r = first res /\ prob r = prob res /\ cost r = cost res /\
   coeffs r = coeffs') /\
  f_res (snd (GetResidualCostSSE2_frame ctx0 s)) = f_res s.
Proof.
  split; [repeat split |].
  unfold GetResidualCostSSE2_frame.
  destruct (last (f_res s) <? 0); [reflexivity |].
  destruct (residual_loop _ _ _ _ _) as [[n t] c].
  destruct (n <? 15); reflexivity.
Qed.

End CostProperties.

(** * Further properties of the two functions *)

(** ** The mask of [SetResidualCoeffsSSE2] bit by bit *)

Lemma shiftr2_quad (b m : Z) : 0 <= b < 4 -> Z.shiftr (b + 4 * m) 2 = m.
Proof.
  intros Hb; rewrite Z.shiftr_div_pow2 by lia; change (2 ^ 2) with 4.
  symmetry; apply Z.div_unique with (r := b); lia.
Qed.

Lemma testbit_quad_high (b m n : Z) :
  0 <= b < 4 -> 2 <= n -> Z.testbit (b + 4 * m) n = Z.testbit m (n - 2).
Proof.
  intros Hb Hn.
  rewrite <- (shiftr2_quad b m Hb) at 2.
  rewrite Z.shiftr_spec by lia.
  f_equal; lia.
Qed.

Lemma testbit_quad_low (b m : Z) :
  b = 0 \/ b = 3 ->
  Z.testbit (b + 4 * m) 0 = (b =? 3) /\ Z.testbit (b + 4 * m) 1 = (b =? 3).
Proof.
  intros Hb; split.
  - rewrite Z.bit0_odd.
    replace (b + 4 * m) with (b + 2 * (2 * m)) by lia.
    rewrite Z.odd_add_mul_2; destruct Hb as [-> | ->]; reflexivity.
  - rewrite Z.testbit_odd, Z.shiftr_div_pow2 by lia; change (2 ^ 1) with 2.
    destruct Hb as [-> | ->].
    + replace ((0 + 4 * m) / 2) with (0 + 2 * m)
        by (apply Z.div_unique with (r := 0); lia).
      now rewrite Z.odd_add_mul_2.
    + replace ((3 + 4 * m) / 2) with (1 + 2 * m)
        by (apply Z.div_unique with (r := 1); lia).
      now rewrite Z.odd_add_mul_2.
Qed.

Lemma nzmask_testbit (l : list Z) :
  forall i, 0 <= i < Z.of_nat (length l) ->
  Z.testbit (nzmask l) (2 * i) = negb (get l i =? 0) /\
  Z.testbit (nzmask l) (2 * i + 1) = negb (get l i =? 0).
Proof.
  induction l as [| x r IH]; intros i Hi; [simpl in Hi; lia |].
  cbn [nzmask]; cbn [length] in Hi; rewrite Nat2Z.inj_succ in Hi.
  assert (Hb : (if x =? 0 then 0 else 3) = 0 \/ (if x =? 0 then 0 else 3) = 3)
    by (destruct (x =? 0); auto).
  destruct (Z.eq_dec i 0) as [-> | Hne].
  - change (2 * 0) with 0; change (0 + 1) with 1.
    destruct (testbit_quad_low _ (nzmask r) Hb) as [E0 E1].
    rewrite E0, E1; unfold get; cbn [Z.to_nat nth].
    destruct (x =? 0); split; reflexivity.
  - rewrite !testbit_quad_high by (destruct (x =? 0); lia).
    rewrite get_cons by lia.
    replace (2 * i - 2) with (2 * (i - 1)) by lia.
    replace (2 * i + 1 - 2) with (2 * (i - 1) + 1) by lia.
    apply IH; lia.
Qed.

(** X1. The mask holds two identical bits for each coefficient, bits [2i]
    and [2i+1], set exactly when [coeffs[i]] is not zero, and nothing above
    bit 31. *)
Theorem nonzero_mask_bits (c : list Z) (i : Z) :
  block16 c -> 0 <= i < 16 ->
  Z.testbit (nonzero_mask c) (2 * i) = negb (get c i =? 0) /\
  Z.testbit (nonzero_mask c) (2 * i + 1) = negb (get c i =? 0) /\
  0 <= nonzero_mask c < 2 ^ 32.
Proof.
  intros Hc Hi.
  rewrite nonzero_mask_nzmask by assumption.
  destruct Hc as [Hlen _].
  destruct (nzmask_testbit c i) as [E0 E1]; [rewrite Hlen; lia |].
  pose proof (zmask_nzmask c) as E; rewrite Hlen in E.
  change (4 ^ Z.of_nat 16) with (2 ^ 32) in E.
  pose proof (zmask_nonneg c); pose proof (nzmask_nonneg c).
  repeat split; try assumption; lia.
Qed.

(** ** What [last] is, read from the block *)

(** X2. [res->last] is a position [k] exactly when [coeffs[k]] is not zero
    and every later coefficient is: the stored index is determined by which
    coefficients are zero, whatever the values of the others. *)
Theorem SetResidualCoeffsSSE2_last_iff (c : list Z) (res : VP8Residual)
  (k : Z) :
  block16 c -> 0 <= k < 16 ->
  (last (SetResidualCoeffsSSE2 c res) = k <->
   get c k <> 0 /\ forall j, k < j < 16 -> get c j = 0).
Proof.
  intros Hc Hk.
  rewrite SetResidualCoeffsSSE2_last_nz by assumption.
  destruct Hc as [Hlen _].
  pose proof (last_nz_greatest c) as G.
  split.
  - intros E; destruct G as (_ & N & Zr).
    rewrite Hlen, E in *; change (Z.of_nat 16) with 16 in Zr.
    split; [apply N; lia | exact Zr].
  - intros [Hnz Hz].
    apply (greatest_nonzero_unique c); [exact G |].
    unfold greatest_nonzero; rewrite Hlen; change (Z.of_nat 16) with 16.
    repeat split; try lia; auto.
Qed.

(** X10. The three arrays are exact on the whole [int16_t] range.  At
    [-32768] the 16-bit difference wraps to [-32768] and the pack saturates
    it to [-128], the byte 128; read unsigned, the arrays still hold 32768,
    2 and 67. *)
Theorem precompute_int16 (s : Frame) (i : Z) :
  block16 (coeffs (f_res s)) -> frame_ok s -> 0 <= i < 16 ->
  let c := get (coeffs (f_res s)) i in
  let s' := precompute s in
  get (abs_levels s') i = Z.abs c /\
  get (ctxs s') i = Z.min (Z.abs c) 2 /\
  get (levels s') i = Z.min (Z.abs c) 67 /\
  (c = -32768 ->
   lane_abs c = -32768 /\ lane_pack (lane_abs c) = 128 /\
   get (abs_levels s') i = 32768 /\ get (ctxs s') i = 2 /\
   get (levels s') i = 67).
Proof.
  intros Hc Hs Hi c s'.
  subst s'; rewrite precompute_arrays by assumption.
  cbn [abs_levels ctxs levels]; rewrite !get_map by reflexivity.
  fold c; unfold ctx_of, level_of, MAX_VARIABLE_LEVEL.
  clearbody c.
  repeat split; try reflexivity; subst c; reflexivity.
Qed.

(** X3. Under the assertion of the function and with [first] in {0,1},
    nothing has to be masked out below [first]: [last] is [-1] or at least
    [first], and it is [-1] exactly when every coefficient from [first] on
    is zero. *)
Theorem SetResidualCoeffsSSE2_from_first (c : list Z) (res : VP8Residual) :
  block16 c -> first_ok c res -> first res = 0 \/ first res = 1 ->
  let r := last (SetResidualCoeffsSSE2 c res) in
  (r = -1 \/ first res <= r <= 15) /\
  (r = -1 <-> forall i, first res <= i < 16 -> get c i = 0).
Proof.
  intros Hc Hok Hf r.
  pose proof (SetResidualCoeffsSSE2_first_le_last c res Hc Hok Hf) as Hle.
  cbv zeta in Hle; change (first (SetResidualCoeffsSSE2 c res))
    with (first res) in Hle; fold r in Hle.
  assert (Hr : r = last_nz c) by (now apply SetResidualCoeffsSSE2_last_nz).
  destruct (last_nz_greatest c) as (B & N & Zr).
  destruct Hc as [Hlen _]; rewrite Hlen, <- Hr in B, Zr.
  rewrite <- Hr in N; change (Z.of_nat 16) with 16 in B, Zr.
  split; [lia | split].
  - intros E i Hi; apply Zr; lia.
  - intros Hz; destruct (Z_lt_le_dec r 0) as [? | Hpos]; [lia |].
    exfalso; apply (N Hpos), Hz; lia.
Qed.

(** ** Further properties of the cost *)

Lemma abs_everywhere (c1 c2 : list Z) :
  block16 c1 -> block16 c2 ->
  (forall i, 0 <= i < 16 -> Z.abs (get c1 i) = Z.abs (get c2 i)) ->
  forall i, Z.abs (get c1 i) = Z.abs (get c2 i).
Proof.
  intros [L1 _] [L2 _] H i.
  destruct (Z_lt_le_dec i 0) as [Hneg | Hpos].
  - replace (get c1 i) with (get c1 0) by (unfold get; f_equal; lia).
    replace (get c2 i) with (get c2 0) by (unfold get; f_equal; lia).
    apply H; lia.
  - destruct (Z_lt_le_dec i 16) as [Hlt | Hge]; [apply H; lia |].
    unfold get; now rewrite !nth_overflow by lia.
Qed.

Lemma In_upfrom (k : nat) :
  forall a i, In i (upfrom a k) -> a <= i < a + Z.of_nat k.
Proof.
  induction k as [| k IH]; intros a i Hin; [destruct Hin |].
  cbn [upfrom] in Hin; destruct Hin as [<- | Hin]; [lia |].
  apply IH in Hin; lia.
Qed.

Lemma upfrom_snoc (k : nat) :
  forall a, upfrom a (S k) = upfrom a k ++ [a + Z.of_nat k].
Proof.
  induction k as [| k IH]; intros a.
  - cbn [upfrom app]; f_equal; lia.
  - change (upfrom a (S (S k))) with (a :: upfrom (a + 1) (S k)).
    rewrite IH; cbn [upfrom app]; do 3 f_equal; lia.
Qed.

Lemma ctx_of_level (c : Z) : ctx_of c = Z.min (level_of c) 2.
Proof. unfold ctx_of, level_of, MAX_VARIABLE_LEVEL; lia. Qed.

Section CostExtras.

Context {tables : CostTables}.

(** X4. For a block of sixteen zeros [SetResidualCoeffsSSE2] stores
    [last = -1] and the cost computed from the residual it leaves is the
    bit-cost [VP8BitCost(0, prob[first][ctx0][0])] alone, whatever [first],
    [ctx0] and the cost tables. *)
Theorem zero_block_cost (c : list Z) (res : VP8Residual) (ctx0 : Z) :
  block16 c -> (forall i, 0 <= i < 16 -> get c i = 0) ->
  last (SetResidualCoeffsSSE2 c res) = -1 /\
  GetResidualCostSSE2 ctx0 (SetResidualCoeffsSSE2 c res)
  = VP8BitCost 0 (prob res (first res) ctx0 0).
Proof.
  intros Hc Hz.
  assert (Hl : last (SetResidualCoeffsSSE2 c res) = -1).
  { rewrite SetResidualCoeffsSSE2_last_nz by assumption.
    apply (greatest_nonzero_unique c); [apply last_nz_greatest |].
    destruct Hc as [Hlen _]; unfold greatest_nonzero; rewrite Hlen.
    change (Z.of_nat 16) with 16.
    repeat split; try lia.
    intros j Hj; apply Hz; lia. }
  split; [exact Hl |].
  rewrite GetResidualCostSSE2_empty by lia; reflexivity.
Qed.

(** X5. On a residual left by [SetResidualCoeffsSSE2] (under its assertion,
    [first] in {0,1}) with [last >= 0], the loop of the cost function ends
    at [n = last] and the full level read there is not zero: the assertion
    [flevel != 0] holds. *)
Theorem last_coefficient_nonzero (c : list Z) (res : VP8Residual)
  (t : Z -> Z) (cost0 : Z) :
  block16 c -> first_ok c res -> first res = 0 \/ first res = 1 ->
  let r := SetResidualCoeffsSSE2 c res in
  0 <= last r ->
  let s := working_frame r in
  let n := fst (accumulate s (first r) t cost0) in
  n = last r /\ get (abs_levels s) n <> 0.
Proof.
  intros Hc Hok Hf r Hl s n.
  pose proof (SetResidualCoeffsSSE2_first_le_last c res Hc Hok Hf Hl) as Hle.
  fold r in Hle.
  assert (Hn : n = last r).
  { subst n s; rewrite accumulate_fold by exact Hc; cbn [fst]; lia. }
  split; [exact Hn |].
  rewrite Hn; subst s; rewrite working_frame_arrays by exact Hc.
  cbn [abs_levels]; rewrite get_map by reflexivity.
  change (coeffs r) with c.
  assert (Hr : last r = last_nz c) by (now apply SetResidualCoeffsSSE2_last_nz).
  destruct (last_nz_greatest c) as (_ & N & _).
  rewrite <- Hr in N; specialize (N Hl); lia.
Qed.

Lemma spec_step_abs (r1 r2 : VP8Residual) (st : (Z -> Z) * Z) (n : Z) :
  cost r1 = cost r2 ->
  Z.abs (get (coeffs r1) n) = Z.abs (get (coeffs r2) n) ->
  spec_step r1 st n = spec_step r2 st n.
Proof.
  intros Hcost Habs.
  unfold spec_step, spec_coeff_cost, cost_row, ctx_of, level_of.
  now rewrite Hcost, Habs.
Qed.

Lemma fold_spec_step_abs (r1 r2 : VP8Residual) (l : list Z) :
  cost r1 = cost r2 ->
  (forall i, In i l ->
             Z.abs (get (coeffs r1) i) = Z.abs (get (coeffs r2) i)) ->
  forall st,
  fold_left (spec_step r1) l st = fold_left (spec_step r2) l st.
Proof.
  intros Hcost; induction l as [| n l IH]; intros Habs st; [reflexivity |].
  cbn [fold_left].
  rewrite (spec_step_abs r1 r2) by (auto; apply Habs; left; reflexivity).
  apply IH; intros i Hi; apply Habs; right; exact Hi.
Qed.

(** The cost sees the magnitudes of the positions from [first] to the
    position the loop ends at, and nothing else of the block. *)
Lemma GetResidualCostSSE2_abs_ext (ctx0 : Z) (r1 r2 : VP8Residual) :
  block16 (coeffs r1) -> block16 (coeffs r2) ->
  first r1 = first r2 -> last r1 = last r2 ->
  prob r1 = prob r2 -> cost r1 = cost r2 ->
  (forall i, first r1 <= i <= Z.max (first r1) (last r1) ->
             Z.abs (get (coeffs r1) i) = Z.abs (get (coeffs r2) i)) ->
  GetResidualCostSSE2 ctx0 r1 = GetResidualCostSSE2 ctx0 r2.
Proof.
  intros H1 H2 Hf Hl Hp Hc Habs.
  destruct (Z_lt_le_dec (last r1) 0) as [Hneg | Hpos].
  - rewrite !GetResidualCostSSE2_empty by lia.
    unfold entry_p0; now rewrite Hf, Hp.
  - rewrite !GetResidualCostSSE2_stages by lia.
    unfold cost_from.
    rewrite !accumulate_fold, !terminate_ctx by assumption; cbn [fst snd].
    unfold base_cost, entry_p0, cost_row, spec_coeff_cost, ctx_of, level_of.
    rewrite <- Hf, <- Hl, <- Hp, <- Hc.
    rewrite <- (Habs (Z.max (first r1) (last r1))) by lia.
    rewrite (fold_spec_step_abs r1 r2); [reflexivity | exact Hc |].
    intros i Hi; apply In_upfrom in Hi; apply Habs; lia.
Qed.

(** X6. Two residuals with the same [first], [last] and tables whose
    coefficients have the same magnitudes at the positions [first .. last]
    cost the same: neither signs nor the coefficients outside
    [first .. last] enter the result. *)
Theorem GetResidualCostSSE2_window (ctx0 : Z) (r1 r2 : VP8Residual) :
  block16 (coeffs r1) -> block16 (coeffs r2) ->
  first r1 = first r2 -> last r1 = last r2 ->
  prob r1 = prob r2 -> cost r1 = cost r2 ->
  first r1 <= last r1 ->
  (forall i, first r1 <= i <= last r1 ->
             Z.abs (get (coeffs r1) i) = Z.abs (get (coeffs r2) i)) ->
  GetResidualCostSSE2 ctx0 r1 = GetResidualCostSSE2 ctx0 r2.
Proof.
  intros H1 H2 Hf Hl Hp Hc Hle Habs.
  apply GetResidualCostSSE2_abs_ext; try assumption.
  intros i Hi; apply Habs; lia.
Qed.

(** X7. Blocks with the same magnitudes position by position get the same
    [last] from [SetResidualCoeffsSSE2] and then the same cost: the two
    functions together do not see the signs. *)
Theorem SetGet_magnitudes (ctx0 : Z) (c1 c2 : list Z) (res : VP8Residual) :
  block16 c1 -> block16 c2 ->
  (forall i, 0 <= i < 16 -> Z.abs (get c1 i) = Z.abs (get c2 i)) ->
  last (SetResidualCoeffsSSE2 c1 res) = last (SetResidualCoeffsSSE2 c2 res)
  /\ GetResidualCostSSE2 ctx0 (SetResidualCoeffsSSE2 c1 res)
     = GetResidualCostSSE2 ctx0 (SetResidualCoeffsSSE2 c2 res).
Proof.
  intros H1 H2 Habs.
  pose proof (abs_everywhere c1 c2 H1 H2 Habs) as Hall.
  assert (Hl : last (SetResidualCoeffsSSE2 c1 res)
               = last (SetResidualCoeffsSSE2 c2 res)).
  { rewrite !SetResidualCoeffsSSE2_last_nz by assumption.
    apply dominated_last_nz.
    - destruct H1 as [-> _], H2 as [-> _]; reflexivity.
    - intros i; unfold ctx_of; rewrite (Hall i); split; [reflexivity | lia]. }
  split; [exact Hl |].
  apply GetResidualCostSSE2_abs_ext; try assumption; try reflexivity.
  intros i _; apply Hall.
Qed.

Lemma residual_loop_bounds (s : Frame) (F : Z) (fuel : nat) :
  (forall l, 0 <= VP8LevelFixedCosts l <= F) ->
  (forall b c l, 0 <= cost (f_res s) b c l <= 65535) ->
  forall (n : Z) (t : Z -> Z) (cost0 : Z),
  (forall l, 0 <= t l <= 65535) ->
  let out := residual_loop s fuel n t cost0 in
  (forall l, 0 <= snd (fst out) l <= 65535) /\
  cost0 <= snd out <= cost0 + Z.of_nat fuel * (F + 65535).
Proof.
  intros HF Hc; induction fuel as [| fuel IH]; intros n t cost0 Ht; cbv zeta.
  - cbn [residual_loop fst snd]; split; [exact Ht | lia].
  - cbn [residual_loop].
    destruct (n <? last (f_res s)).
    + specialize (IH (n + 1)
                     (cost_row (f_res s) (VP8EncBands (n + 1))
                               (get (ctxs s) n))
                     (cost0 + (VP8LevelFixedCosts (get (abs_levels s) n)
                               + t (get (levels s) n)))
                     (Hc _ _)).
      cbv zeta in IH; destruct IH as [IHt IHc].
      split; [exact IHt |].
      pose proof (HF (get (abs_levels s) n)).
      pose proof (Ht (get (levels s) n)).
      rewrite Nat2Z.inj_succ; nia.
    + cbn [fst snd]; split; [exact Ht |].
      pose proof (HF 0); rewrite Nat2Z.inj_succ; nia.
Qed.

(** X8. With bit costs in [0, B], fixed level costs in [0, F] and 16-bit
    cost-table entries, the cost of a residual with [0 <= first] and
    [last <= 15] lies in [0, 2 B + 16 (F + 65535)]: for 16-bit [B] and [F]
    that is below 2^31, so the [int] accumulator does not overflow. *)
Theorem GetResidualCostSSE2_bounds (ctx0 : Z) (res : VP8Residual) (B F : Z) :
  (forall bit p, 0 <= VP8BitCost bit p <= B) ->
  (forall l, 0 <= VP8LevelFixedCosts l <= F) ->
  (forall b c l, 0 <= cost res b c l <= 65535) ->
  0 <= first res -> last res <= 15 ->
  0 <= GetResidualCostSSE2 ctx0 res <= 2 * B + 16 * (F + 65535).
Proof.
  intros HB HF Hc Hfirst Hlast.
  pose proof (HB 0 0) as HB0; pose proof (HF 0) as HF0.
  destruct (Z_lt_le_dec (last res) 0) as [Hneg | Hpos].
  - rewrite GetResidualCostSSE2_empty by lia.
    pose proof (HB 0 (entry_p0 ctx0 res)); lia.
  - rewrite GetResidualCostSSE2_stages by lia.
    unfold cost_from, accumulate, terminate.
    assert (Hres : f_res (working_frame res) = res) by reflexivity.
    pose proof (residual_loop_bounds (working_frame res) F
                  (Z.to_nat (last res - first res)) HF) as L.
    rewrite Hres in L |- *.
    specialize (L Hc (first res) (cost_row res (first res) ctx0)
                  (base_cost ctx0 res) (Hc _ _)).
    cbv zeta in L.
    destruct (residual_loop _ _ _ _ _) as [[n t] c]; cbn [fst snd] in L |- *.
    destruct L as [Lt Lc].
    assert (Hb : 0 <= base_cost ctx0 res <= B).
    { unfold base_cost; destruct (ctx0 =? 0); [apply HB | lia]. }
    pose proof (HF (get (abs_levels (working_frame res)) n)).
    pose proof (Lt (get (levels (working_frame res)) n)).
    assert (Hterm : 0 <= (if n <? 15
                          then VP8BitCost 0
                                 (prob res (VP8EncBands (n + 1))
                                       (get (ctxs (working_frame res)) n) 0)
                          else 0) <= B).
    { destruct (n <? 15); [apply HB | lia]. }
    assert (Hfuel : Z.of_nat (Z.to_nat (last res - first res)) <= 15) by lia.
    nia.
Qed.

Lemma fixed_costs_over_snoc (c : list Z) (l : list Z) (x : Z) :
  fixed_costs_over c (l ++ [x])
  = fixed_costs_over c l + VP8LevelFixedCosts (Z.abs (get c x)).
Proof.
  unfold fixed_costs_over.
  induction l as [| i l IH]; cbn [app fold_right]; [lia |].
  rewrite IH; lia.
Qed.

Lemma fold_spec_step_levels (r1 r2 : VP8Residual) (l : list Z) :
  cost r1 = cost r2 ->
  (forall i, In i l ->
             level_of (get (coeffs r1) i) = level_of (get (coeffs r2) i)) ->
  forall (t : Z -> Z) (a1 a2 : Z),
  let st1 := fold_left (spec_step r1) l (t, a1) in
  let st2 := fold_left (spec_step r2) l (t, a2) in
  fst st1 = fst st2 /\
  snd st2 - snd st1
  = (a2 - a1)
    + (fixed_costs_over (coeffs r2) l - fixed_costs_over (coeffs r1) l).
Proof.
  intros Hcost; induction l as [| n l IH]; intros Hlev t a1 a2; cbv zeta.
  - cbn [fold_left fst snd fixed_costs_over fold_right]; split;
      [reflexivity | lia].
  - cbn [fold_left].
    assert (Hn : level_of (get (coeffs r1) n) = level_of (get (coeffs r2) n))
      by (apply Hlev; left; reflexivity).
    unfold spec_step at 2 4 6 8; cbn [fst snd].
    unfold cost_row; rewrite !ctx_of_level, Hcost, Hn.
    specialize (IH (fun i Hi => Hlev i (or_intror Hi))
                   (cost r2 (VP8EncBands (n + 1))
                         (Z.min (level_of (get (coeffs r2) n)) 2))
                   (a1 + spec_coeff_cost t (get (coeffs r1) n))
                   (a2 + spec_coeff_cost t (get (coeffs r2) n))).
    cbv zeta in IH; destruct IH as [IHt IHc].
    split; [exact IHt |].
    rewrite IHc; unfold spec_coeff_cost, fixed_costs_over; cbn [fold_right].
    rewrite Hn; lia.
Qed.

(** X9. The cost tables see a coefficient through its clamped level only:
    when two residuals with the same [first], [last] and tables have the
    same clamped level [min(|c|, 67)] at every position [first .. last],
    their costs differ by the difference of their fixed level costs summed
    over these positions. *)
Theorem GetResidualCostSSE2_fixed_costs (ctx0 : Z) (r1 r2 : VP8Residual) :
  block16 (coeffs r1) -> block16 (coeffs r2) ->
  first r1 = first r2 -> last r1 = last r2 ->
  prob r1 = prob r2 -> cost r1 = cost r2 ->
  0 <= last r1 -> first r1 <= last r1 ->
  (forall i, first r1 <= i <= last r1 ->
             level_of (get (coeffs r1) i) = level_of (get (coeffs r2) i)) ->
  GetResidualCostSSE2 ctx0 r2 - GetResidualCostSSE2 ctx0 r1
  = fixed_costs_over (coeffs r2) (positions (first r1) (last r1))
    - fixed_costs_over (coeffs r1) (positions (first r1) (last r1)).
Proof.
  intros H1 H2 Hf Hl Hp Hc Hpos Hle Hlev.
  rewrite !GetResidualCostSSE2_stages by lia.
  unfold cost_from.
  rewrite !accumulate_fold, !terminate_ctx by assumption; cbn [fst snd].
  unfold base_cost, entry_p0, cost_row.
  rewrite <- Hf, <- Hl, <- Hp, <- Hc.
  replace (Z.max (first r1) (last r1)) with (last r1) by lia.
  set (fuel := Z.to_nat (last r1 - first r1)).
  assert (Hpositions : positions (first r1) (last r1)
                       = upfrom (first r1) fuel ++ [last r1]).
  { unfold positions.
    replace (Z.to_nat (last r1 - first r1 + 1)) with (S fuel)
      by (subst fuel; lia).
    rewrite upfrom_snoc; do 2 f_equal; subst fuel; lia. }
  rewrite Hpositions, !fixed_costs_over_snoc.
  destruct (fold_spec_step_levels r1 r2 (upfrom (first r1) fuel) Hc) with
    (t := cost r1 (first r1) ctx0)
    (a1 := if ctx0 =? 0
           then VP8BitCost 1 (prob r1 (first r1) ctx0 0) else 0)
    (a2 := if ctx0 =? 0
           then VP8BitCost 1 (prob r1 (first r1) ctx0 0) else 0)
    as [Et Ec].
  { intros i Hi; apply In_upfrom in Hi; apply Hlev; subst fuel; lia. }
  assert (Hlast : level_of (get (coeffs r1) (last r1))
                  = level_of (get (coeffs r2) (last r1)))
    by (apply Hlev; lia).
  rewrite !ctx_of_level, <- Hlast.
  unfold spec_coeff_cost; rewrite <- Et, <- Hlast.
  lia.
Qed.

(** X11. When [first = last] the loop does not run and the cost is the base
    cost, the cost of the one coefficient in the row
    [cost[first][ctx0]] that the caller's context selects, and the end of
    block from [prob[band(first + 1)]] if [first < 15]. *)
Theorem GetResidualCostSSE2_single (ctx0 : Z) (res : VP8Residual) :
  block16 (coeffs res) -> 0 <= last res -> first res = last res ->
  let c := get (coeffs res) (first res) in
  GetResidualCostSSE2 ctx0 res
  = (if ctx0 =? 0 then VP8BitCost 1 (prob res (first res) ctx0 0) else 0)
    + (VP8LevelFixedCosts (Z.abs c)
       + cost res (first res) ctx0 (Z.min (Z.abs c) 67))
    + (if first res <? 15
       then VP8BitCost 0 (prob res (VP8EncBands (first res + 1))
                               (Z.min (Z.abs c) 2) 0)
       else 0).
Proof.
  intros Hc Hl Hfl c.
  rewrite GetResidualCostSSE2_stages by lia.
  unfold cost_from.
  rewrite accumulate_fold, terminate_ctx by assumption; cbn [fst snd].
  replace (Z.to_nat (last res - first res)) with 0%nat by lia.
  replace (Z.max (first res) (last res)) with (first res) by lia.
  cbn [upfrom fold_left fst snd].
  reflexivity.
Qed.

Lemma dsp_store_fold (ws : list dsp_write) :
  forall d,
  fold_left dsp_store ws d
  = mkCostDsp
      (if in_dec (fun a b : dsp_write => ltac:(decide equality))
                 Write_VP8SetResidualCoeffs ws
       then SetResidualCoeffsSSE2 else VP8SetResidualCoeffs d)
      (if in_dec (fun a b : dsp_write => ltac:(decide equality))
                 Write_VP8GetResidualCost ws
       then GetResidualCostSSE2 else VP8GetResidualCost d).
Proof.
  induction ws as [| w ws IH]; intros d.
  - destruct d; reflexivity.
  - cbn [fold_left]; rewrite IH.
    repeat match goal with
           | |- context [in_dec ?e ?x ?l] => destruct (in_dec e x l)
           end;
      destruct w; cbn [dsp_store VP8SetResidualCoeffs VP8GetResidualCost];
      try reflexivity;
      exfalso;
      repeat match goal with
             | H : In _ (_ :: _) |- _ => destruct H as [H | H]
             | H : ~ In _ (_ :: _) |- _ =>
                 apply Decidable.not_or in H; destruct H
             end;
      try discriminate; try contradiction; congruence.
Qed.

(** X12. The entry point overwrites both pointers with values that do not
    depend on what they held: any sequence of these two assignments in
    which both occur, such as the assignments of several calls in any
    order, leaves the pointers as one call does from any state; when
    [WEBP_USE_SSE2] is not defined the call changes nothing. *)
Theorem VP8EncDspCostInitSSE2_writes (ws : list dsp_write) (d d' : CostDsp) :
  In Write_VP8SetResidualCoeffs ws -> In Write_VP8GetResidualCost ws ->
  fold_left dsp_store ws d = VP8EncDspCostInitSSE2 true d' /\
  VP8EncDspCostInitSSE2 false d = d.
Proof.
  intros Hs Hg; split; [| reflexivity].
  rewrite dsp_store_fold.
  destruct (in_dec _ _ ws) as [_ | N]; [| contradiction].
  destruct (in_dec _ _ ws) as [_ | N]; [| contradiction].
  reflexivity.
Qed.

End CostExtras.



(** ** The claims at concrete blocks *)

Ltac block16_tac :=
  split; [reflexivity | repeat constructor; unfold int16_t; lia].

Lemma mixed_block16 : block16 mixed_block.
Proof. block16_tac. Qed.

Lemma dc_block16 (v : Z) : int16_t v -> block16 (dc_block v).
Proof.
  intros Hv; split; [reflexivity |].
  constructor; [exact Hv | repeat constructor; unfold int16_t; lia].
Qed.

Lemma SetResidualCoeffsSSE2_last_witness :
  last (SetResidualCoeffsSSE2 (dc_block 3) (sample_residual 0)) = 0 /\
  last (SetResidualCoeffs_scalar (dc_block 3) (sample_residual 0)) = 0.
Proof.
  assert (Hb : block16 (dc_block 3))
    by (apply dc_block16; unfold int16_t; lia).
  destruct (SetResidualCoeffsSSE2_last (dc_block 3) (sample_residual 0) Hb)
    as (_ & _ & _ & E).
  split; [| rewrite <- E]; reflexivity.
Defined.

Example SetResidualCoeffsSSE2_zero_block :
  last (SetResidualCoeffsSSE2 zero_block (sample_residual 0)) = -1.
Proof. reflexivity. Qed.

Example SetResidualCoeffsSSE2_mixed_block : last res_mixed = 6.
Proof. reflexivity. Qed.

Example SetResidualCoeffsSSE2_min_int16 :
  last (SetResidualCoeffsSSE2 (repeat 0 15 ++ [-32768]) (sample_residual 0))
  = 15.
Proof. reflexivity. Qed.

Lemma GetResidualCostSSE2_sum_witness :
  GetResidualCostSSE2 (tables := sample_tables) 0 res_mixed
  = spec_coeffs_cost (tables := sample_tables) 0 res_mixed
    + spec_end_cost (tables := sample_tables) res_mixed.
Proof.
  apply (GetResidualCostSSE2_sum (tables := sample_tables) 0 res_mixed).
  - exact mixed_block16.
  - reflexivity.
  - reflexivity.
  - left; reflexivity.
  - vm_compute; discriminate.
  - vm_compute; discriminate.
Defined.

(** C1 as stated fails for a block that ends before position 15: the
    function returns the claimed sum, 4214 here, and the cost of the end of
    block, 188, on top of it. *)
Lemma GetResidualCostSSE2_sum_without_end :
  (first res_mixed = 0 \/ first res_mixed = 1) /\
  0 <= last res_mixed /\
  GetResidualCostSSE2 (tables := sample_tables) 0 res_mixed
  <> spec_coeffs_cost (tables := sample_tables) 0 res_mixed.
Proof. repeat split; [left; reflexivity | | ]; vm_compute; discriminate. Qed.

(** The cost of [mixed_block] from context 0, term by term: base 200, the
    positions 0..5 51 + 120 + 285 + 320 + 651 + 420, the last coefficient
    2167, the end of block 188. *)
Example GetResidualCostSSE2_mixed_block :
  GetResidualCostSSE2 (tables := sample_tables) 0 res_mixed = 4402.
Proof. reflexivity. Qed.

(** C3 as stated fails for a block that starts at position 4, whose band
    is 6: the function reads [prob[4]], not [prob[6]]. *)
Lemma GetResidualCostSSE2_empty_block_first4 :
  last res_zero4 < 0 /\
  GetResidualCostSSE2 (tables := sample_tables) 0 res_zero4
  <> spec_empty_cost (tables := sample_tables) 0 res_zero4.
Proof. split; [reflexivity | vm_compute; discriminate]. Qed.

Lemma GetResidualCostSSE2_empty_block_witness :
  GetResidualCostSSE2 (tables := sample_tables) 2 res_zero1
  = spec_empty_cost (tables := sample_tables) 2 res_zero1.
Proof.
  apply (GetResidualCostSSE2_empty_block (tables := sample_tables)
           2 res_zero1).
  - reflexivity.
  - reflexivity.
  - right; reflexivity.
  - reflexivity.
Defined.

Lemma GetResidualCostSSE2_base_term_witness :
  GetResidualCostSSE2 (tables := sample_tables) 0 res_mixed
  = sample_bit_cost 1 (entry_p0 0 res_mixed)
    + cost_from (tables := sample_tables) 0 0 res_mixed.
Proof.
  apply (GetResidualCostSSE2_base_term (tables := sample_tables)
           0 res_mixed).
  - vm_compute; discriminate.
  - reflexivity.
Defined.

Lemma GetResidualCostSSE2_terminating_term_witness :
  GetResidualCostSSE2 (tables := sample_tables) 1 res_mixed
  = cost_through_last (tables := sample_tables)
      (base_cost (tables := sample_tables) 1 res_mixed) 1 res_mixed
    + sample_bit_cost 0 (prob res_mixed (bands_vp8 7) 2 0).
Proof.
  apply (GetResidualCostSSE2_terminating_term (tables := sample_tables)
           1 res_mixed).
  - exact mixed_block16.
  - vm_compute; discriminate.
  - vm_compute; discriminate.
  - reflexivity.
Defined.

(** C6 as stated fails at [first = 4]: the entry read is [prob[4][ctx0]]
    while the band of position 4 is 6, and both the base cost and the cost
    of the empty block come out different. *)
Lemma entry_p0_first4 :
  0 <= first res_late4 /\
  entry_p0 0 res_late4 <> prob res_late4 (bands_vp8 (first res_late4)) 0 0 /\
  base_cost (tables := sample_tables) 0 res_late4
  <> spec_base_cost (tables := sample_tables) 0 res_late4 /\
  GetResidualCostSSE2 (tables := sample_tables) 0 res_zero4
  <> spec_empty_cost (tables := sample_tables) 0 res_zero4.
Proof. repeat split; vm_compute; discriminate. Qed.

Lemma entry_p0_band_witness :
  entry_p0 0 res_mixed = prob res_mixed (bands_vp8 (first res_mixed)) 0 0.
Proof.
  apply (entry_p0_band (tables := sample_tables) 0 res_mixed).
  - reflexivity.
  - reflexivity.
  - left; reflexivity.
Defined.

(** C7 as stated fails: the two costs also differ by the entries of the
    first coefficient in the two initial rows. *)
Lemma GetResidualCostSSE2_ctx0_difference_rows :
  0 <= last res_dc1 /\
  GetResidualCostSSE2 (tables := sample_tables) 0 res_dc1
  - GetResidualCostSSE2 (tables := sample_tables) 1 res_dc1
  <> sample_bit_cost 1 (prob res_dc1 (bands_vp8 (first res_dc1)) 0 0).
Proof. split; vm_compute; discriminate. Qed.

Lemma GetResidualCostSSE2_ctx0_difference_witness :
  GetResidualCostSSE2 (tables := sample_tables) 0 res_dc1
  - GetResidualCostSSE2 (tables := sample_tables) 1 res_dc1
  = sample_bit_cost 1 (prob res_dc1 0 0 0)
    + (cost res_dc1 0 0 1 - cost res_dc1 0 1 1).
Proof.
  apply (GetResidualCostSSE2_ctx0_difference (tables := sample_tables)
           1 res_dc1).
  - apply dc_block16; unfold int16_t; lia.
  - vm_compute; discriminate.
  - left; reflexivity.
Defined.

(** C8 as stated fails: with cost rows that fall as the level grows (and
    fixed level costs all zero), the block with the larger magnitude at
    position 0 costs less. *)
Lemma GetResidualCostSSE2_monotone_falling_rows :
  Z.abs 2 <= Z.abs 3 /\
  GetResidualCostSSE2 (tables := flat_tables) 0
    (SetResidualCoeffsSSE2 (dc_block 3) falling_residual)
  < GetResidualCostSSE2 (tables := flat_tables) 0
      (SetResidualCoeffsSSE2 (dc_block 2) falling_residual).
Proof. split; [lia | reflexivity]. Qed.

(** Why the amended C8 keeps the context bucket: with rows that grow with
    the level, raising the magnitude at position 0 from 1 to 2 moves the
    next position to the row of context 2, which may be cheaper. *)
Example GetResidualCostSSE2_bucket_change :
  GetResidualCostSSE2 (tables := flat_tables) 0
    (SetResidualCoeffsSSE2 (2 :: 1 :: repeat 0 14) ctx_falling_residual)
  < GetResidualCostSSE2 (tables := flat_tables) 0
      (SetResidualCoeffsSSE2 (1 :: 1 :: repeat 0 14) ctx_falling_residual).
Proof. reflexivity. Qed.

(** And why a zero coefficient stays zero: a new non-zero coefficient after
    [last] moves the end of block to another band, where it may be
    cheaper. *)
Example GetResidualCostSSE2_last_change :
  GetResidualCostSSE2 (tables := flat_tables) 0
    (SetResidualCoeffsSSE2 (1 :: 0 :: 0 :: 1 :: repeat 0 12)
                           late_end_residual)
  < GetResidualCostSSE2 (tables := flat_tables) 0
      (SetResidualCoeffsSSE2 (dc_block 1) late_end_residual).
Proof. reflexivity. Qed.

Lemma GetResidualCostSSE2_monotone_witness :
  GetResidualCostSSE2 (tables := dip_tables) 0
    (SetResidualCoeffsSSE2 (dc_block 2) steep_residual)
  <= GetResidualCostSSE2 (tables := dip_tables) 0
       (SetResidualCoeffsSSE2 (dc_block (-3)) steep_residual).
Proof.
  apply (GetResidualCostSSE2_monotone (tables := dip_tables) 0 0
           (dc_block 2) (dc_block (-3)) steep_residual).
  - apply dc_block16; unfold int16_t; lia.
  - apply dc_block16; unfold int16_t; lia.
  - lia.
  - intros i Hi Hne; unfold get.
    destruct (Z.to_nat i) as [| j] eqn:E; [lia |].
    reflexivity.
  - vm_compute; discriminate.
  - reflexivity.
  - intros b ctx m1 m2 H1 H2; cbn [steep_residual cost].
    cbv [VP8LevelFixedCosts dip_tables dip_fixed_costs steep_cost].
    destruct (Z.eqb_spec m1 3), (Z.eqb_spec m2 3); lia.
Defined.

Lemma precompute_exact_witness :
  get (abs_levels (precompute (enter res_mixed (repeat 0 48)))) 6 = 100 /\
  get (ctxs (precompute (enter res_mixed (repeat 0 48)))) 6 = 2 /\
  get (levels (precompute (enter res_mixed (repeat 0 48)))) 6 = 67.
Proof.
  destruct (precompute_exact (enter res_mixed (repeat 0 48)) 6)
    as (Ha & Hc & Hl & _).
  - exact mixed_block16.
  - repeat split.
  - lia.
  - vm_compute; split; discriminate.
  - rewrite Ha, Hc, Hl; repeat split.
Defined.

(** ** The further properties at concrete blocks *)

Ltac by_index i :=
  unfold get;
  let n := fresh "n" in
  remember (Z.to_nat i) as n;
  do 16 (destruct n as [| n]; [try reflexivity; lia |]);
  lia.

Lemma min_block16 : block16 min_block.
Proof. block16_tac. Qed.

Lemma window_block16 : block16 window_block.
Proof. block16_tac. Qed.

Lemma clamped_block16 : block16 clamped_block.
Proof. block16_tac. Qed.

Lemma negated_mixed_block16 : block16 negated_mixed_block.
Proof. block16_tac. Qed.

Lemma nonzero_mask_bits_witness :
  Z.testbit (nonzero_mask mixed_block) 4 = true /\
  Z.testbit (nonzero_mask mixed_block) 5 = true /\
  Z.testbit (nonzero_mask mixed_block) 6 = false.
Proof.
  destruct (nonzero_mask_bits mixed_block 2 mixed_block16) as (E0 & E1 & _);
    [lia |].
  destruct (nonzero_mask_bits mixed_block 3 mixed_block16) as (E2 & _);
    [lia |].
  split; [exact E0 | split; [exact E1 | exact E2]].
Defined.

Lemma SetResidualCoeffsSSE2_last_iff_witness :
  last (SetResidualCoeffsSSE2 min_block (sample_residual 0)) = 2.
Proof.
  apply (SetResidualCoeffsSSE2_last_iff min_block (sample_residual 0) 2).
  - exact min_block16.
  - lia.
  - split; [vm_compute; discriminate | intros j Hj; by_index j].
Defined.

Lemma SetResidualCoeffsSSE2_from_first_witness :
  1 <= last (SetResidualCoeffsSSE2 late_block (sample_residual 1)) <= 15.
Proof.
  destruct (SetResidualCoeffsSSE2_from_first late_block (sample_residual 1))
    as [[E | A] _].
  - block16_tac.
  - right; reflexivity.
  - right; reflexivity.
  - vm_compute in E; discriminate E.
  - exact A.
Defined.

Lemma zero_block_cost_witness :
  GetResidualCostSSE2 (tables := sample_tables) 2 res_zero1
  = sample_bit_cost 0 (sample_prob 1 2 0).
Proof.
  destruct (zero_block_cost (tables := sample_tables) zero_block
              (sample_residual 1) 2) as [_ E].
  - block16_tac.
  - intros i Hi; by_index i.
  - exact E.
Defined.

Lemma last_coefficient_nonzero_witness :
  get (abs_levels (working_frame res_mixed)) 6 <> 0.
Proof.
  destruct (last_coefficient_nonzero (tables := sample_tables) mixed_block
              (sample_residual 0) (fun _ => 0) 0) as [En Hn].
  - exact mixed_block16.
  - left; reflexivity.
  - left; reflexivity.
  - vm_compute; discriminate.
  - exact Hn.
Defined.

Lemma GetResidualCostSSE2_window_witness :
  GetResidualCostSSE2 (tables := sample_tables) 0 res_mixed
  = GetResidualCostSSE2 (tables := sample_tables) 0 res_window.
Proof.
  apply (GetResidualCostSSE2_window (tables := sample_tables) 0 res_mixed
           res_window).
  - exact mixed_block16.
  - exact window_block16.
  - reflexivity.
  - reflexivity.
  - reflexivity.
  - reflexivity.
  - vm_compute; discriminate.
  - intros i Hi.
    change (last res_mixed) with 6 in Hi; change (first res_mixed) with 0 in Hi.
    change (coeffs res_mixed) with mixed_block.
    change (coeffs res_window) with window_block.
    by_index i.
Defined.

Lemma SetGet_magnitudes_witness :
  GetResidualCostSSE2 (tables := sample_tables) 1
    (SetResidualCoeffsSSE2 mixed_block (sample_residual 0))
  = GetResidualCostSSE2 (tables := sample_tables) 1
      (SetResidualCoeffsSSE2 negated_mixed_block (sample_residual 0)).
Proof.
  destruct (SetGet_magnitudes (tables := sample_tables) 1 mixed_block
              negated_mixed_block (sample_residual 0)) as [_ E].
  - exact mixed_block16.
  - exact negated_mixed_block16.
  - intros i Hi; by_index i.
  - exact E.
Defined.

Lemma GetResidualCostSSE2_bounds_witness :
  0 <= GetResidualCostSSE2 (tables := bounded_tables) 0 res_bounded
    <= 2 * 256 + 16 * (2047 + 65535).
Proof.
  apply (GetResidualCostSSE2_bounds (tables := bounded_tables) 0 res_bounded
           256 2047).
  - intros bit p; cbv [VP8BitCost bounded_tables]; lia.
  - intros l; cbv [VP8LevelFixedCosts bounded_tables]; lia.
  - intros b c l; change (cost res_bounded) with bounded_cost.
    unfold bounded_cost; lia.
  - vm_compute; discriminate.
  - vm_compute; discriminate.
Defined.

Lemma GetResidualCostSSE2_fixed_costs_witness :
  GetResidualCostSSE2 (tables := sample_tables) 0 res_clamped
  - GetResidualCostSSE2 (tables := sample_tables) 0 res_mixed
  = sample_fixed_costs 80 - sample_fixed_costs 100.
Proof.
  rewrite (GetResidualCostSSE2_fixed_costs (tables := sample_tables) 0
             res_mixed res_clamped).
  - reflexivity.
  - exact mixed_block16.
  - exact clamped_block16.
  - reflexivity.
  - reflexivity.
  - reflexivity.
  - reflexivity.
  - vm_compute; discriminate.
  - vm_compute; discriminate.
  - intros i Hi.
    change (last res_mixed) with 6 in Hi; change (first res_mixed) with 0 in Hi.
    change (coeffs res_mixed) with mixed_block.
    change (coeffs res_clamped) with clamped_block.
    by_index i.
Defined.

Lemma precompute_int16_witness :
  get (abs_levels
         (precompute (enter (set_coeffs min_block (sample_residual 0))
                            (repeat 0 48)))) 1 = 32768.
Proof.
  destruct (precompute_int16
              (enter (set_coeffs min_block (sample_residual 0)) (repeat 0 48))
              1) as (Ha & _).
  - exact min_block16.
  - repeat split.
  - lia.
  - exact Ha.
Defined.

Lemma GetResidualCostSSE2_single_witness :
  GetResidualCostSSE2 (tables := sample_tables) 1 res_dc1
  = 0 + (sample_fixed_costs 1 + sample_cost 0 1 1)
    + sample_bit_cost 0 (sample_prob (bands_vp8 1) 1 0).
Proof.
  apply (GetResidualCostSSE2_single (tables := sample_tables) 1 res_dc1).
  - apply dc_block16; unfold int16_t; lia.
  - vm_compute; discriminate.
  - reflexivity.
Defined.

Lemma VP8EncDspCostInitSSE2_writes_witness :
  fold_left (dsp_store (tables := sample_tables))
    [Write_VP8SetResidualCoeffs; Write_VP8SetResidualCoeffs;
     Write_VP8GetResidualCost; Write_VP8GetResidualCost]
    (mkCostDsp SetResidualCoeffs_scalar (fun _ _ => 0))
  = VP8EncDspCostInitSSE2 (tables := sample_tables) true
      (mkCostDsp (fun _ res => res) (fun _ _ => 1)).
Proof.
  apply (VP8EncDspCostInitSSE2_writes (tables := sample_tables)).
  - left; reflexivity.
  - right; right; left; reflexivity.
Defined.

Lemma GetResidualCostSSE2_any_stack_witness :
  fst (GetResidualCostSSE2_frame (tables := sample_tables) 0
         (enter res_mixed (repeat 7 48)))
  = GetResidualCostSSE2 (tables := sample_tables) 0 res_mixed.
Proof.
  apply (GetResidualCostSSE2_any_stack (tables := sample_tables) 0 res_mixed
           (repeat 7 48)).
  - exact mixed_block16.
  - reflexivity.
Defined.
